(** * UserRepository (repository/user_repository.go) over database/sql

    A shallow embedding of the Go data-access layer of the testcontainers
    demo.  The repository talks to the database only through [*sql.DB]; we
    model that handle as an interface [sqlDB S] over an explicit store state
    [S] (state passing), embed the nine repository methods over any such
    handle, and then give a model of the PostgreSQL store that the tests
    provision (the schema script migrations/init.sql is not part of the
    sources we have, so the store follows the spec's schema). *)

From Stdlib Require Import ZArith String Ascii List Bool Lia.
From Stdlib Require Import Sorted Permutation.
From Stdlib Require Import DecimalString DecimalZ DecimalPos.
Import ListNotations.

Open Scope Z_scope.
Set Warnings "-register-all".

(* ------------------------------------------------------------------ *)
(** ** models.User *)

Record User := mkUser {
  ID : Z;
  Email : string;
  Name : string;
  CreatedAt : Z   (** time.Time, as seconds on the store's clock *)
}.

(* ------------------------------------------------------------------ *)
(** ** Go error values

    - [ErrNoRows] is [sql.ErrNoRows];
    - [SqlError msg] is an error made by database/sql itself (Scan
      conversion errors and the like);
    - [PqError code] is a [*pq.Error] from the driver, with its SQLSTATE;
    - [Errorf fmt w] is the value of [fmt.Errorf(fmt, ...)]: [w] is the
      operand of its [%w] verb, [None] when the format has no [%w] (then the
      error has no [Unwrap] method). *)

Inductive goerror :=
| ErrNoRows
| SqlError (msg : string)
| PqError (code : string)
| Errorf (format : string) (wrapped : option goerror).

Fixpoint goerror_eqb (a b : goerror) : bool :=
  match a, b with
  | ErrNoRows, ErrNoRows => true
  | SqlError m, SqlError m' => String.eqb m m'
  | PqError c, PqError c' => String.eqb c c'
  | Errorf f None, Errorf f' None => String.eqb f f'
  | Errorf f (Some w), Errorf f' (Some w') => String.eqb f f' && goerror_eqb w w'
  | _, _ => false
  end.

(** [errors.Unwrap] *)
Definition Unwrap (e : goerror) : option goerror :=
  match e with
  | Errorf _ w => w
  | _ => None
  end.

(** [errors.Is]: walks the [Unwrap] chain comparing with [==]. *)
Fixpoint errors_Is (e target : goerror) : bool :=
  goerror_eqb e target ||
  match e with
  | Errorf _ (Some w) => errors_Is w target
  | _ => false
  end.

(** SQLSTATE codes the driver reports. *)
Definition unique_violation : string := "23505".
Definition syntax_error : string := "42601".
Definition protocol_violation : string := "08P01".

(** A Go [(T, error)] pair: exactly one of the two is meaningful. *)
Inductive result (A : Type) :=
| Ok (a : A)
| Err (e : goerror).
Arguments Ok {A} a.
Arguments Err {A} e.

(** A Go slice: [var users []T] is the nil slice, which [append] turns into
    a non-nil one. *)
Inductive slice (A : Type) :=
| NilSlice
| MkSlice (l : list A).
Arguments NilSlice {A}.
Arguments MkSlice {A} l.

Definition append {A} (s : slice A) (x : A) : slice A :=
  match s with
  | NilSlice => MkSlice [x]
  | MkSlice l => MkSlice (l ++ [x])
  end.

(** the elements of a slice, what [range] and [len] see *)
Definition elems {A} (s : slice A) : list A :=
  match s with
  | NilSlice => []
  | MkSlice l => l
  end.

(* ------------------------------------------------------------------ *)
(** ** database/sql as the repository uses it *)

(** column values a driver hands to [Scan] *)
Inductive value :=
| VInt (z : Z)
| VText (s : string)
| VTime (t : Z).

(** [*sql.Rows]: the rows the cursor streams, then the error [rows.Err()]
    reports once [rows.Next()] has returned false ([None]: plain end). *)
Record Rows := mkRows {
  rows_data : list (list value);
  rows_err : option goerror
}.

(** [sql.Result]: what [result.RowsAffected()] returns. *)
Definition sqlResult := (goerror + Z)%type.

(** [*sql.DB]: a query (also behind [QueryRow]) and an exec, each taking
    the statement text and its [$n] arguments and threading the store. *)
Record sqlDB (S : Type) := mkDB {
  Query : string -> list value -> S -> S * (goerror + Rows);
  Exec : string -> list value -> S -> S * (goerror + sqlResult)
}.
Arguments Query {S} _ _ _ _.
Arguments Exec {S} _ _ _ _.

(** [rows.Scan(&user.ID, &user.Email, &user.Name, &user.CreatedAt)], for
    columns in the Go types lib/pq decodes them to (an integer, a string, a
    time); the conversions [convertAssign] makes between kinds (a decimal
    string into an int, an int into a string, ...) are not modelled, such a
    row is a Scan error here. *)
Definition scan_user (row : list value) : goerror + User :=
  match row with
  | [VInt i; VText e; VText n; VTime t] => inr (mkUser i e n t)
  | _ => inl (SqlError "sql: Scan error")
  end.

(** [rows.Scan(&count)], with the same scope as [scan_user] *)
Definition scan_int (row : list value) : goerror + Z :=
  match row with
  | [VInt n] => inr n
  | _ => inl (SqlError "sql: Scan error")
  end.

(** [db.QueryRow(q, args...).Scan(dest...)]: the query error; else, with
    no row, [rows.Err()] or [sql.ErrNoRows]; else the Scan error of the
    first row; else the error of the final [r.rows.Close()], which with
    lib/pq drains the cursor and so reports the error the stream ends in;
    else the first row scanned. *)
Definition QueryRowScan {S A} (db : sqlDB S) (scan : list value -> goerror + A)
    (q : string) (args : list value) (st : S) : S * (goerror + A) :=
  let (st', r) := Query db q args st in
  (st', match r with
        | inl e => inl e
        | inr rows =>
            match rows_data rows with
            | row :: _ =>
                match scan row with
                | inl e => inl e
                | inr a => match rows_err rows with
                           | Some e => inl e
                           | None => inr a
                           end
                end
            | [] => match rows_err rows with
                    | Some e => inl e
                    | None => inl ErrNoRows
                    end
            end
        end).

(** The [for rows.Next() { ... }] loop shared by List, FindByNamePattern and
    GetRecentUsers (written out three times in the source, identically). *)
Fixpoint scan_loop (rs : list (list value)) (users : slice User)
    : goerror + slice User :=
  match rs with
  | [] => inr users
  | row :: rs' =>
      match scan_user row with
      | inl e => inl (Errorf "failed to scan user: %w" (Some e))
      | inr u => scan_loop rs' (append users u)
      end
  end.

(** loop, then [if err = rows.Err(); err != nil {...}]; [users] starts as
    [var users []models.User], the nil slice. *)
Definition collect_users (rows : Rows) : result (slice User) :=
  match scan_loop (rows_data rows) NilSlice with
  | inl e => Err e
  | inr users =>
      match rows_err rows with
      | Some e => Err (Errorf "error iterating users: %w" (Some e))
      | None => Ok users
      end
  end.

(* ------------------------------------------------------------------ *)
(** ** Statement texts *)

Definition nl : string := String (ascii_of_nat 10) EmptyString.
Definition tab : string := String (ascii_of_nat 9) EmptyString.
(** a new line of a backquoted Go literal indented by two tabs *)
Definition ln2 (s : string) : string := (nl ++ tab ++ tab ++ s)%string.

Definition q_GetByID : string :=
  "SELECT id, email, name, created_at FROM users WHERE id = $1".
Definition q_GetByEmail : string :=
  "SELECT id, email, name, created_at FROM users WHERE email = $1".
Definition q_Create : string :=
  (ln2 "INSERT INTO users (email, name)" ++ ln2 "VALUES ($1, $2)"
   ++ ln2 "RETURNING id, email, name, created_at" ++ nl ++ tab)%string.
Definition q_Update : string :=
  "UPDATE users SET email = $1, name = $2 WHERE id = $3".
Definition q_Delete : string := "DELETE FROM users WHERE id = $1".
Definition q_List : string :=
  "SELECT id, email, name, created_at FROM users ORDER BY id".
Definition q_FindByNamePattern : string :=
  "SELECT id, email, name, created_at FROM users WHERE name ILIKE $1 ORDER BY id".
Definition q_CountUsers : string := "SELECT COUNT(*) FROM users".

(** the format string of GetRecentUsers, split around its [%d] verb *)
Definition recent_head : string :=
  (ln2 "SELECT id, email, name, created_at " ++ ln2 "FROM users "
   ++ ln2 "WHERE created_at >= NOW() - INTERVAL '")%string.
Definition recent_tail : string :=
  (" days'" ++ ln2 "ORDER BY created_at DESC" ++ nl ++ tab)%string.
Definition q_GetRecentUsers_format : string :=
  (recent_head ++ "%d" ++ recent_tail)%string.

(** [%d] of a Go [int]: decimal digits, a leading '-' when negative *)
Definition format_int (d : Z) : string := NilZero.string_of_int (Z.to_int d).

(** [fmt.Sprintf(format, d)] for a format whose only verb is [%d]: the verb
    is replaced by [d], every other character is copied. *)
Fixpoint Sprintf_d (format : string) (d : Z) : string :=
  match format with
  | EmptyString => EmptyString
  | String c rest =>
      match rest with
      | String c' rest' =>
          if Ascii.eqb c "%"%char && Ascii.eqb c' "d"%char
          then (format_int d ++ rest')%string
          else String c (Sprintf_d rest d)
      | EmptyString => String c EmptyString
      end
  end.

(* ------------------------------------------------------------------ *)
(** ** repository.UserRepository *)

Section Repository.
Context {S : Type}.
(** [r.db] *)
Variable db : sqlDB S.

Definition GetByID (id : Z) (st : S) : S * result User :=
  let (st', r) := QueryRowScan db scan_user q_GetByID [VInt id] st in
  (st', match r with
        | inl ErrNoRows => Err (Errorf "user not found" None)
        | inl e => Err (Errorf "failed to get user: %w" (Some e))
        | inr user => Ok user
        end).

Definition GetByEmail (email : string) (st : S) : S * result User :=
  let (st', r) := QueryRowScan db scan_user q_GetByEmail [VText email] st in
  (st', match r with
        | inl ErrNoRows => Err (Errorf "user not found" None)
        | inl e => Err (Errorf "failed to get user: %w" (Some e))
        | inr user => Ok user
        end).

Definition Create (email name : string) (st : S) : S * result User :=
  let (st', r) := QueryRowScan db scan_user q_Create [VText email; VText name] st in
  (st', match r with
        | inl e => Err (Errorf "failed to create user: %w" (Some e))
        | inr user => Ok user
        end).

(** [rowsAffected == 0] check shared by Update and Delete *)
Definition check_affected (op : string) (r : goerror + sqlResult) : result unit :=
  match r with
  | inl e => Err (Errorf op (Some e))
  | inr (inl e) => Err (Errorf "failed to get rows affected: %w" (Some e))
  | inr (inr n) => if n =? 0 then Err (Errorf "user not found" None) else Ok tt
  end.

Definition Update (id : Z) (email name : string) (st : S) : S * result unit :=
  let (st', r) := Exec db q_Update [VText email; VText name; VInt id] st in
  (st', check_affected "failed to update user: %w" r).

Definition Delete (id : Z) (st : S) : S * result unit :=
  let (st', r) := Exec db q_Delete [VInt id] st in
  (st', check_affected "failed to delete user: %w" r).

Definition List (st : S) : S * result (slice User) :=
  let (st', r) := Query db q_List [] st in
  (st', match r with
        | inl e => Err (Errorf "failed to list users: %w" (Some e))
        | inr rows => collect_users rows
        end).

Definition FindByNamePattern (pattern : string) (st : S) : S * result (slice User) :=
  let (st', r) := Query db q_FindByNamePattern [VText pattern] st in
  (st', match r with
        | inl e => Err (Errorf "failed to find users by pattern: %w" (Some e))
        | inr rows => collect_users rows
        end).

Definition CountUsers (st : S) : S * result Z :=
  let (st', r) := QueryRowScan db scan_int q_CountUsers [] st in
  (st', match r with
        | inl e => Err (Errorf "failed to count users: %w" (Some e))
        | inr count => Ok count
        end).

Definition GetRecentUsers (days : Z) (st : S) : S * result (slice User) :=
  let (st', r) := Query db (Sprintf_d q_GetRecentUsers_format days) [] st in
  (st', match r with
        | inl e => Err (Errorf "failed to get recent users: %w" (Some e))
        | inr rows => collect_users rows
        end).

End Repository.

(* ------------------------------------------------------------------ *)
(** ** The PostgreSQL store *)

(** Modelled from the spec: the users table of migrations/init.sql (not in
    the sources) and the store's execution of the statements above.  The
    schema is the spec's: [id] a surrogate integer assigned from a sequence
    on creation and never reused, [email] unique and required, [name]
    required free text, [created_at] defaulting to the store's current time.
    The table is kept in insertion (heap) order; [ORDER BY] sorts. *)
Record pg_store := mkStore {
  users : list User;
  users_id_seq : Z;   (** the next value [nextval] hands out *)
  clock : Z           (** [NOW()], in seconds *)
}.

Definition set_users (st : pg_store) (us : list User) : pg_store :=
  mkStore us (users_id_seq st) (clock st).
Definition bump_seq (st : pg_store) : pg_store :=
  mkStore (users st) (users_id_seq st + 1) (clock st).

Definition user_row (u : User) : list value :=
  [VInt (ID u); VText (Email u); VText (Name u); VTime (CreatedAt u)].

(** insertion sort on a boolean order, stable *)
Fixpoint insert_by (le : User -> User -> bool) (x : User) (l : list User) :=
  match l with
  | [] => [x]
  | y :: l' => if le x y then x :: l else y :: insert_by le x l'
  end.

Fixpoint sort_by (le : User -> User -> bool) (l : list User) : list User :=
  match l with
  | [] => []
  | x :: l' => insert_by le x (sort_by le l')
  end.

(** [ORDER BY id] and [ORDER BY created_at DESC] *)
Definition by_id (a b : User) : bool := ID a <=? ID b.
Definition by_created_desc (a b : User) : bool := CreatedAt b <=? CreatedAt a.

(** [lower()] on ASCII letters *)
Definition to_lower (c : ascii) : ascii :=
  let n := nat_of_ascii c in
  if (65 <=? n)%nat && (n <=? 90)%nat then ascii_of_nat (n + 32) else c.

Fixpoint lower (s : string) : string :=
  match s with
  | EmptyString => EmptyString
  | String c s' => String (to_lower c) (lower s')
  end.

(** [s LIKE p] with the wildcards of the spec: [%] matches any run of
    characters, [_] any one character, every other character itself. *)
Fixpoint like (p s : string) : bool :=
  match p with
  | EmptyString => match s with EmptyString => true | String _ _ => false end
  | String c p' =>
      if Ascii.eqb c "%"%char then
        (fix any (s : string) : bool :=
           like p' s || match s with
                        | EmptyString => false
                        | String _ s' => any s'
                        end) s
      else match s with
           | EmptyString => false
           | String c' s' => (Ascii.eqb c "_"%char || Ascii.eqb c c') && like p' s'
           end
  end.

(** [name ILIKE pattern] *)
Definition ilike (s p : string) : bool := like (lower p) (lower s).

Fixpoint strip_prefix (p s : list ascii) : option (list ascii) :=
  match p, s with
  | [], _ => Some s
  | c :: p', c' :: s' => if Ascii.eqb c c' then strip_prefix p' s' else None
  | _ :: _, [] => None
  end.

(** The store reads the day count of an interval query back from its text
    ['N days']. *)
Definition parse_recent (q : string) : option Z :=
  match strip_prefix (list_ascii_of_string recent_head) (list_ascii_of_string q) with
  | None => None
  | Some r =>
      match strip_prefix (rev (list_ascii_of_string recent_tail)) (rev r) with
      | None => None
      | Some rnum =>
          option_map Z.of_int (NilZero.int_of_string (string_of_list_ascii (rev rnum)))
      end
  end.

Definition seconds_per_day : Z := 86400.

(** [created_at >= NOW() - INTERVAL 'N days'] *)
Definition recent (st : pg_store) (days : Z) (u : User) : bool :=
  clock st - days * seconds_per_day <=? CreatedAt u.

Definition rows_of (us : list User) : Rows := mkRows (map user_row us) None.

Definition has_email (e : string) (u : User) : bool := String.eqb (Email u) e.
Definition has_id (i : Z) (u : User) : bool := ID u =? i.

Definition pg_query (q : string) (args : list value) (st : pg_store)
    : pg_store * (goerror + Rows) :=
  if String.eqb q q_GetByID then
    match args with
    | [VInt i] => (st, inr (rows_of (filter (has_id i) (users st))))
    | _ => (st, inl (PqError protocol_violation))
    end
  else if String.eqb q q_GetByEmail then
    match args with
    | [VText e] => (st, inr (rows_of (filter (has_email e) (users st))))
    | _ => (st, inl (PqError protocol_violation))
    end
  else if String.eqb q q_Create then
    match args with
    | [VText e; VText n] =>
        (* nextval runs first and is not undone by a failed insert *)
        let u := mkUser (users_id_seq st) e n (clock st) in
        let st1 := bump_seq st in
        if existsb (has_email e) (users st)
        then (st1, inl (PqError unique_violation))
        else (set_users st1 (users st ++ [u]), inr (rows_of [u]))
    | _ => (st, inl (PqError protocol_violation))
    end
  else if String.eqb q q_List then
    match args with
    | [] => (st, inr (rows_of (sort_by by_id (users st))))
    | _ => (st, inl (PqError protocol_violation))
    end
  else if String.eqb q q_FindByNamePattern then
    match args with
    | [VText p] =>
        (st, inr (rows_of (sort_by by_id (filter (fun u => ilike (Name u) p) (users st)))))
    | _ => (st, inl (PqError protocol_violation))
    end
  else if String.eqb q q_CountUsers then
    match args with
    | [] => (st, inr (mkRows [[VInt (Z.of_nat (length (users st)))]] None))
    | _ => (st, inl (PqError protocol_violation))
    end
  else
    match parse_recent q, args with
    | Some days, [] =>
        (st, inr (rows_of (sort_by by_created_desc (filter (recent st days) (users st)))))
    | Some _, _ :: _ => (st, inl (PqError protocol_violation))
    | None, _ => (st, inl (PqError syntax_error))
    end.

Definition pg_exec (q : string) (args : list value) (st : pg_store)
    : pg_store * (goerror + sqlResult) :=
  if String.eqb q q_Update then
    match args with
    | [VText e; VText n; VInt i] =>
        let hit := filter (has_id i) (users st) in
        match hit with
        | [] => (st, inr (inr 0))
        | _ :: _ =>
            if existsb (fun u => negb (has_id i u) && has_email e u) (users st)
            then (st, inl (PqError unique_violation))
            else (set_users st (map (fun u => if has_id i u
                                              then mkUser (ID u) e n (CreatedAt u)
                                              else u) (users st)),
                  inr (inr (Z.of_nat (length hit))))
        end
    | _ => (st, inl (PqError protocol_violation))
    end
  else if String.eqb q q_Delete then
    match args with
    | [VInt i] =>
        (set_users st (filter (fun u => negb (has_id i u)) (users st)),
         inr (inr (Z.of_nat (length (filter (has_id i) (users st))))))
    | _ => (st, inl (PqError protocol_violation))
    end
  else (st, inl (PqError syntax_error)).

Definition pg : sqlDB pg_store := mkDB pg_store pg_query pg_exec.

(** the seed rows of the tests *)
Definition seed : pg_store :=
  mkStore [mkUser 1 "alice@example.com" "Alice Smith" 1700000000;
           mkUser 2 "bob@example.com" "Bob Johnson" 1700000000]
          3 1700000000.

(** the store invariants of the spec's data model *)
Definition wf (st : pg_store) : Prop :=
  NoDup (map ID (users st)) /\ NoDup (map Email (users st)) /\
  0 < users_id_seq st /\
  (forall u, In u (users st) -> 0 < ID u < users_id_seq st /\ CreatedAt u <= clock st).

(* ------------------------------------------------------------------ *)
(** ** A driver that records the statements it is sent *)

Definition stmt_log := list (string * list value).

Definition trace_db : sqlDB stmt_log :=
  mkDB stmt_log (fun q args log => (log ++ [(q, args)], inr (mkRows [] None)))
                (fun q args log => (log ++ [(q, args)], inr (inr 0))).

(** the statement texts an operation sends, starting from an empty log *)
Definition texts {A} (run : stmt_log -> stmt_log * A) : list string :=
  map fst (fst (run [])).

(* ------------------------------------------------------------------ *)
(** ** Shapes of results *)

Definition not_found : goerror := Errorf "user not found" None.

(** an error made by [fmt.Errorf] with a [%w] operand *)
Definition wraps_cause (e : goerror) : Prop :=
  exists msg cause, e = Errorf msg (Some cause).

Definition err_shape {A} (may_not_find : bool) (r : result A) : Prop :=
  match r with
  | Ok _ => True
  | Err e => (may_not_find = true /\ e = not_found) \/ wraps_cause e
  end.

(** The error a database/sql call reports in a run, if any, which the
    repository receives as [err]:
    - [row_error]: [QueryRow(...).Scan(...)] on the driver's answer to the
      query: the query's error, else [rows.Err()] or [sql.ErrNoRows] when no
      row came, else the Scan error of the first row, else the error the
      stream ends in (reported by the final [Close]);
    - [rows_error]: [Query] and the row loop: the query's error, else the
      Scan error of the first row that does not scan, else [rows.Err()];
    - [exec_error]: [Exec] and [RowsAffected()]. *)
Definition row_error {A} (scan : list value -> goerror + A) (q : goerror + Rows)
    : option goerror :=
  match q with
  | inl e => Some e
  | inr rows =>
      match rows_data rows with
      | [] => match rows_err rows with Some e => Some e | None => Some ErrNoRows end
      | row :: _ =>
          match scan row with
          | inl e => Some e
          | inr _ => rows_err rows
          end
      end
  end.

Fixpoint loop_error (rs : list (list value)) : option goerror :=
  match rs with
  | [] => None
  | row :: rs' =>
      match scan_user row with
      | inl e => Some e
      | inr _ => loop_error rs'
      end
  end.

Definition rows_error (q : goerror + Rows) : option goerror :=
  match q with
  | inl e => Some e
  | inr rows =>
      match loop_error (rows_data rows) with
      | Some e => Some e
      | None => rows_err rows
      end
  end.

Definition exec_error (x : goerror + sqlResult) : option goerror :=
  match x with
  | inl e => Some e
  | inr (inl e) => Some e
  | inr (inr _) => None
  end.

(** [r] keeps the cause [cause] of a run: every error in [r] is the
    cause-less NotFound (only where [may_not_find]) or an [fmt.Errorf] whose
    [%w] operand is exactly [cause]; and a reported cause is never dropped:
    it is wrapped, or, where [may_not_find], [sql.ErrNoRows] becomes NotFound. *)
Definition keeps_cause {A} (may_not_find : bool) (cause : option goerror) (r : result A)
    : Prop :=
  (forall e, r = Err e ->
     (may_not_find = true /\ e = not_found) \/
     exists msg c, cause = Some c /\ e = Errorf msg (Some c)) /\
  (forall c, cause = Some c ->
     (may_not_find = true /\ c = ErrNoRows /\ r = Err not_found) \/
     exists msg, r = Err (Errorf msg (Some c))).

(** the slice the row loop builds from rows: nil when there are none *)
Definition slice_of_list {A} (l : list A) : slice A :=
  match l with
  | [] => NilSlice
  | _ :: _ => MkSlice l
  end.

(* ------------------------------------------------------------------ *)
(** * Lemmas *)

Lemma scan_user_row (u : User) : scan_user (user_row u) = inr u.
Proof. destruct u; reflexivity. Qed.

Lemma scan_loop_rows (us : list User) (s : slice User) :
  scan_loop (map user_row us) s =
  inr (match us with [] => s | _ :: _ => MkSlice (elems s ++ us) end).
Proof.
  revert s; induction us as [|u us IH]; intros s; [reflexivity|].
  cbn [map scan_loop]. rewrite scan_user_row, IH.
  destruct us as [|u' us'].
  - destruct s; reflexivity.
  - destruct s; cbn; rewrite ?app_nil_r, <- ?app_assoc; reflexivity.
Qed.

Lemma collect_rows_of (us : list User) :
  collect_users (rows_of us) = Ok (slice_of_list us).
Proof.
  unfold collect_users, rows_of; cbn [rows_data rows_err].
  rewrite scan_loop_rows. destruct us; reflexivity.
Qed.

Lemma elems_slice_of_list {A} (l : list A) : elems (slice_of_list l) = l.
Proof. destruct l; reflexivity. Qed.

(** *** insertion sort *)

Section Sorting.
Variable le : User -> User -> bool.
Hypothesis le_total : forall a b, le a b = false -> le b a = true.

Lemma insert_by_perm (x : User) (l : list User) :
  Permutation (insert_by le x l) (x :: l).
Proof.
  induction l as [|y l IH]; cbn; [reflexivity|].
  destruct (le x y); [reflexivity|].
  rewrite IH. apply perm_swap.
Qed.

Lemma sort_by_perm (l : list User) : Permutation (sort_by le l) l.
Proof.
  induction l as [|x l IH]; cbn; [reflexivity|].
  rewrite insert_by_perm, IH. reflexivity.
Qed.

Let R (a b : User) : Prop := le a b = true.

Lemma insert_by_hd (y x : User) (l : list User) :
  HdRel R y l -> R y x -> HdRel R y (insert_by le x l).
Proof.
  intros H Hyx. destruct l as [|z l]; cbn.
  - constructor; exact Hyx.
  - destruct (le x z); constructor; [exact Hyx|]. now inversion H.
Qed.

Lemma insert_by_sorted (x : User) (l : list User) :
  Sorted R l -> Sorted R (insert_by le x l).
Proof.
  induction 1 as [|y l Hl IH Hd]; cbn.
  - repeat constructor.
  - destruct (le x y) eqn:E.
    + constructor; [constructor; assumption | constructor; exact E].
    + constructor; [exact IH|]. apply insert_by_hd; [exact Hd|]. now apply le_total.
Qed.

Lemma sort_by_sorted (l : list User) : Sorted R (sort_by le l).
Proof.
  induction l; cbn; [constructor|]. now apply insert_by_sorted.
Qed.

End Sorting.

Lemma by_id_total a b : by_id a b = false -> by_id b a = true.
Proof. unfold by_id; intros H; apply Z.leb_gt in H; apply Z.leb_le; lia. Qed.

Lemma by_created_desc_total a b :
  by_created_desc a b = false -> by_created_desc b a = true.
Proof. unfold by_created_desc; intros H; apply Z.leb_gt in H; apply Z.leb_le; lia. Qed.

(** with distinct ids, ascending order is strict *)
Lemma sorted_strict (l : list User) :
  Sorted (fun a b => by_id a b = true) l -> NoDup (map ID l) ->
  Sorted (fun a b => ID a < ID b) l.
Proof.
  induction 1 as [|a l Hl IH Hd]; intros Hnd; constructor.
  - apply IH. now inversion Hnd.
  - destruct Hd as [|b l' Hab]; constructor.
    inversion Hnd as [|? ? Hnin]; subst. unfold by_id in Hab. apply Z.leb_le in Hab.
    assert (ID a <> ID b) by (intros E; apply Hnin; rewrite E; left; reflexivity).
    lia.
Qed.

Lemma sort_by_id_strict (l : list User) :
  NoDup (map ID l) -> Sorted (fun a b => ID a < ID b) (sort_by by_id l).
Proof.
  intros H. apply sorted_strict.
  - apply sort_by_sorted, by_id_total.
  - eapply Permutation_NoDup; [|exact H].
    apply Permutation_map. symmetry. apply sort_by_perm.
Qed.

(** *** the statement text of GetRecentUsers *)

Lemma Sprintf_recent (d : Z) :
  Sprintf_d q_GetRecentUsers_format d = (recent_head ++ format_int d ++ recent_tail)%string.
Proof. reflexivity. Qed.

Lemma list_ascii_app (a b : string) :
  list_ascii_of_string (a ++ b) = list_ascii_of_string a ++ list_ascii_of_string b.
Proof. induction a; cbn; [reflexivity|]. now rewrite IHa. Qed.

Lemma strip_prefix_app (p r : list ascii) : strip_prefix p (p ++ r) = Some r.
Proof. induction p; cbn; [reflexivity|]. now rewrite Ascii.eqb_refl. Qed.

Lemma format_int_parse (d : Z) :
  option_map Z.of_int (NilZero.int_of_string (format_int d)) = Some d.
Proof.
  unfold format_int. rewrite NilZero.isi.
  - cbn. now rewrite DecimalZ.of_to.
  - destruct d; cbn; try discriminate.
    intros E; injection E; apply DecimalPos.Unsigned.to_uint_nonnil.
  - destruct d; cbn; try discriminate.
    intros E; injection E; apply DecimalPos.Unsigned.to_uint_nonnil.
Qed.

Lemma parse_recent_format (d : Z) :
  parse_recent (recent_head ++ format_int d ++ recent_tail) = Some d.
Proof.
  unfold parse_recent. rewrite !list_ascii_app, strip_prefix_app, rev_app_distr,
    strip_prefix_app, rev_involutive, string_of_list_ascii_of_string.
  apply format_int_parse.
Qed.

(** *** the store on each statement *)

Lemma pg_GetByID (i : Z) (st : pg_store) :
  pg_query q_GetByID [VInt i] st = (st, inr (rows_of (filter (has_id i) (users st)))).
Proof. reflexivity. Qed.

Lemma pg_GetByEmail (e : string) (st : pg_store) :
  pg_query q_GetByEmail [VText e] st = (st, inr (rows_of (filter (has_email e) (users st)))).
Proof. reflexivity. Qed.

Lemma pg_Create (e n : string) (st : pg_store) :
  pg_query q_Create [VText e; VText n] st =
  (if existsb (has_email e) (users st)
   then (bump_seq st, inl (PqError unique_violation))
   else (set_users (bump_seq st) (users st ++ [mkUser (users_id_seq st) e n (clock st)]),
         inr (rows_of [mkUser (users_id_seq st) e n (clock st)]))).
Proof. reflexivity. Qed.

Lemma pg_List (st : pg_store) :
  pg_query q_List [] st = (st, inr (rows_of (sort_by by_id (users st)))).
Proof. reflexivity. Qed.

Lemma pg_FindByNamePattern (p : string) (st : pg_store) :
  pg_query q_FindByNamePattern [VText p] st =
  (st, inr (rows_of (sort_by by_id (filter (fun u => ilike (Name u) p) (users st))))).
Proof. reflexivity. Qed.

Lemma pg_CountUsers (st : pg_store) :
  pg_query q_CountUsers [] st =
  (st, inr (mkRows [[VInt (Z.of_nat (length (users st)))]] None)).
Proof. reflexivity. Qed.

Lemma pg_GetRecentUsers (d : Z) (st : pg_store) :
  pg_query (recent_head ++ format_int d ++ recent_tail) [] st =
  (st, inr (rows_of (sort_by by_created_desc (filter (recent st d) (users st))))).
Proof.
  unfold pg_query.
  replace (String.eqb (recent_head ++ format_int d ++ recent_tail) q_GetByID) with false
    by reflexivity.
  replace (String.eqb (recent_head ++ format_int d ++ recent_tail) q_GetByEmail) with false
    by reflexivity.
  replace (String.eqb (recent_head ++ format_int d ++ recent_tail) q_Create) with false
    by reflexivity.
  replace (String.eqb (recent_head ++ format_int d ++ recent_tail) q_List) with false
    by reflexivity.
  replace (String.eqb (recent_head ++ format_int d ++ recent_tail) q_FindByNamePattern)
    with false by reflexivity.
  replace (String.eqb (recent_head ++ format_int d ++ recent_tail) q_CountUsers) with false
    by reflexivity.
  rewrite parse_recent_format. reflexivity.
Qed.

Lemma pg_Update (e n : string) (i : Z) (st : pg_store) :
  pg_exec q_Update [VText e; VText n; VInt i] st =
  match filter (has_id i) (users st) with
  | [] => (st, inr (inr 0))
  | _ :: _ =>
      if existsb (fun u => negb (has_id i u) && has_email e u) (users st)
      then (st, inl (PqError unique_violation))
      else (set_users st (map (fun u => if has_id i u then mkUser (ID u) e n (CreatedAt u)
                                        else u) (users st)),
            inr (inr (Z.of_nat (length (filter (has_id i) (users st))))))
  end.
Proof. unfold pg_exec. cbn -[filter existsb map length]. now destruct (filter _ _). Qed.

Lemma pg_Delete (i : Z) (st : pg_store) :
  pg_exec q_Delete [VInt i] st =
  (set_users st (filter (fun u => negb (has_id i u)) (users st)),
   inr (inr (Z.of_nat (length (filter (has_id i) (users st)))))).
Proof. reflexivity. Qed.

(** *** lookups by a unique key *)

Section Keys.
Context {K : Type}.
Variable key : User -> K.
Variable eqk : K -> K -> bool.
Hypothesis eqk_spec : forall x y, eqk x y = true <-> x = y.

Lemma filter_key_absent (k : K) (l : list User) :
  ~ In k (map key l) -> filter (fun v => eqk (key v) k) l = [].
Proof.
  induction l as [|a l IH]; cbn; intros H; [reflexivity|].
  destruct (eqk (key a) k) eqn:E.
  - exfalso. apply H. left. now apply eqk_spec.
  - apply IH. intros H'. apply H. now right.
Qed.

Lemma filter_key_unique (u : User) (l : list User) :
  NoDup (map key l) -> In u l -> filter (fun v => eqk (key v) (key u)) l = [u].
Proof.
  induction l as [|a l IH]; cbn; intros Hnd Hin; [contradiction|].
  inversion Hnd as [|? ? Hnin Hnd']; subst.
  destruct Hin as [<-|Hin].
  - rewrite (proj2 (eqk_spec _ _) eq_refl). f_equal.
    now apply filter_key_absent.
  - destruct (eqk (key a) (key u)) eqn:E.
    + exfalso. apply eqk_spec in E. apply Hnin. rewrite E. now apply in_map.
    + now apply IH.
Qed.

End Keys.

Lemma Z_eqb_spec' x y : (x =? y) = true <-> x = y.
Proof. apply Z.eqb_eq. Qed.

Lemma String_eqb_spec' x y : String.eqb x y = true <-> x = y.
Proof. apply String.eqb_eq. Qed.

Lemma existsb_false_filter (f : User -> bool) (l : list User) :
  existsb f l = false -> filter f l = [].
Proof.
  induction l as [|a l IH]; cbn; [reflexivity|].
  destruct (f a); cbn; [discriminate|]. exact IH.
Qed.

Lemma set_users_same (st : pg_store) : set_users st (users st) = st.
Proof. destruct st; reflexivity. Qed.

Lemma filter_negb_absent (i : Z) (l : list User) :
  ~ In i (map ID l) -> filter (fun u => negb (has_id i u)) l = l.
Proof.
  induction l as [|a l IH]; cbn; intros H; [reflexivity|].
  unfold has_id at 1. destruct (ID a =? i) eqn:E.
  - exfalso. apply H. left. now apply Z.eqb_eq.
  - cbn. f_equal. apply IH. intros H'. apply H. now right.
Qed.

(** *** the repository over the store *)

Lemma GetByID_pg (id : Z) (st : pg_store) :
  GetByID pg id st =
  (st, match filter (has_id id) (users st) with
       | [] => Err not_found
       | u :: _ => Ok u
       end).
Proof.
  unfold GetByID, QueryRowScan. cbn [Query pg]. rewrite pg_GetByID.
  destruct (filter _ _) as [|u us]; [reflexivity|].
  destruct u; reflexivity.
Qed.

Lemma GetByEmail_pg (email : string) (st : pg_store) :
  GetByEmail pg email st =
  (st, match filter (has_email email) (users st) with
       | [] => Err not_found
       | u :: _ => Ok u
       end).
Proof.
  unfold GetByEmail, QueryRowScan. cbn [Query pg]. rewrite pg_GetByEmail.
  destruct (filter _ _) as [|u us]; [reflexivity|].
  destruct u; reflexivity.
Qed.

Lemma Create_pg (email name : string) (st : pg_store) :
  Create pg email name st =
  if existsb (has_email email) (users st)
  then (bump_seq st, Err (Errorf "failed to create user: %w" (Some (PqError unique_violation))))
  else (set_users (bump_seq st) (users st ++ [mkUser (users_id_seq st) email name (clock st)]),
        Ok (mkUser (users_id_seq st) email name (clock st))).
Proof.
  unfold Create, QueryRowScan. cbn [Query pg]. rewrite pg_Create.
  destruct (existsb _ _); reflexivity.
Qed.

Lemma Delete_pg (i : Z) (st : pg_store) :
  Delete pg i st =
  (set_users st (filter (fun u => negb (has_id i u)) (users st)),
   if Z.of_nat (length (filter (has_id i) (users st))) =? 0
   then Err not_found else Ok tt).
Proof. unfold Delete. cbn [Exec pg]. now rewrite pg_Delete. Qed.

Lemma Update_pg (i : Z) (email name : string) (st : pg_store) :
  snd (Update pg i email name st) =
  match filter (has_id i) (users st) with
  | [] => Err not_found
  | _ :: _ =>
      if existsb (fun u => negb (has_id i u) && has_email email u) (users st)
      then Err (Errorf "failed to update user: %w" (Some (PqError unique_violation)))
      else Ok tt
  end.
Proof.
  unfold Update. cbn [Exec pg]. rewrite pg_Update.
  destruct (filter _ _) as [|u us] eqn:E; [reflexivity|].
  destruct (existsb _ _); [reflexivity|].
  cbn [snd check_affected length].
  replace (Z.of_nat (S (length us)) =? 0) with false; [reflexivity|].
  symmetry. apply Z.eqb_neq. lia.
Qed.

Lemma List_pg (st : pg_store) :
  List pg st = (st, Ok (slice_of_list (sort_by by_id (users st)))).
Proof. unfold List. cbn [Query pg]. now rewrite pg_List, collect_rows_of. Qed.

Lemma FindByNamePattern_pg (p : string) (st : pg_store) :
  FindByNamePattern pg p st =
  (st, Ok (slice_of_list (sort_by by_id (filter (fun u => ilike (Name u) p) (users st))))).
Proof.
  unfold FindByNamePattern. cbn [Query pg].
  now rewrite pg_FindByNamePattern, collect_rows_of.
Qed.

Lemma CountUsers_pg (st : pg_store) :
  CountUsers pg st = (st, Ok (Z.of_nat (length (users st)))).
Proof. unfold CountUsers, QueryRowScan. cbn [Query pg]. now rewrite pg_CountUsers. Qed.

Lemma GetRecentUsers_pg (d : Z) (st : pg_store) :
  GetRecentUsers pg d st =
  (st, Ok (slice_of_list (sort_by by_created_desc (filter (recent st d) (users st))))).
Proof.
  unfold GetRecentUsers. rewrite Sprintf_recent. cbn [Query pg].
  now rewrite pg_GetRecentUsers, collect_rows_of.
Qed.

Lemma wf_seed : wf seed.
Proof.
  unfold wf, seed; cbn. split; [|split; [|split]].
  - repeat constructor; cbn; [intros [H|H]; [discriminate|contradiction]|tauto].
  - repeat constructor; cbn; [intros [H|H]; [discriminate|contradiction]|tauto].
  - lia.
  - intros u [<-|[<-|[]]]; cbn; lia.
Qed.

Lemma collect_users_shape (rows : Rows) : err_shape false (collect_users rows).
Proof.
  destruct rows as [rs err]. unfold collect_users; cbn [rows_data rows_err].
  generalize (@NilSlice User) as s.
  induction rs as [|row rs IH]; intros s; cbn.
  - destruct err as [e|]; cbn; [right; now exists "error iterating users: %w"%string, e|exact I].
  - destruct (scan_user row) as [e|u]; [|apply IH].
    cbn. right. now exists "failed to scan user: %w"%string, e.
Qed.

Fixpoint goerror_eqb_refl (e : goerror) : goerror_eqb e e = true :=
  match e with
  | ErrNoRows => eq_refl
  | SqlError m => String.eqb_refl m
  | PqError c => String.eqb_refl c
  | Errorf f None => String.eqb_refl f
  | Errorf f (Some w) => andb_true_intro (conj (String.eqb_refl f) (goerror_eqb_refl w))
  end.

Lemma errors_Is_refl (e : goerror) : errors_Is e e = true.
Proof. destruct e; cbn [errors_Is]; now rewrite goerror_eqb_refl. Qed.

Lemma keeps_wrap {A} (nf : bool) (msg : string) (c : goerror) :
  keeps_cause nf (Some c) (@Err A (Errorf msg (Some c))).
Proof.
  split.
  - intros e [= <-]. right. now exists msg, c.
  - intros c' [= <-]. right. now exists msg.
Qed.

Lemma keeps_ok {A} (nf : bool) (a : A) : keeps_cause nf None (Ok a).
Proof. split; [discriminate|discriminate]. Qed.

Lemma keeps_not_found {A} (cause : option goerror) :
  cause = None \/ cause = Some ErrNoRows -> @keeps_cause A true cause (Err not_found).
Proof.
  intros Hc. split.
  - intros e [= <-]. left. now split.
  - intros c Hs. left. destruct Hc as [Hc|Hc]; rewrite Hc in Hs; [discriminate|].
    injection Hs as <-. now repeat split.
Qed.

(** the [if err == sql.ErrNoRows] mapping of GetByID and GetByEmail *)
Lemma keeps_row_lookup (q : goerror + Rows) :
  keeps_cause true (row_error scan_user q)
    match match q with
          | inl e => inl e
          | inr rows =>
              match rows_data rows with
              | row :: _ =>
                  match scan_user row with
                  | inl e => inl e
                  | inr a => match rows_err rows with Some e => inl e | None => inr a end
                  end
              | [] => match rows_err rows with Some e => inl e | None => inl ErrNoRows end
              end
          end with
    | inl ErrNoRows => Err (Errorf "user not found" None)
    | inl e => Err (Errorf "failed to get user: %w" (Some e))
    | inr user => Ok user
    end.
Proof.
  assert (H : forall c, keeps_cause true (Some c)
                match c with
                | ErrNoRows => @Err User (Errorf "user not found" None)
                | e => Err (Errorf "failed to get user: %w" (Some e))
                end).
  { intros [| m | c | f w]; try apply keeps_wrap. apply keeps_not_found. now right. }
  destruct q as [e|[[|row rs] err]]; cbn [row_error rows_data rows_err].
  - apply H.
  - destruct err as [e|]; [apply H|apply keeps_not_found; now right].
  - destruct (scan_user row) as [e|u]; [apply H|].
    destruct err as [e|]; [apply H|apply keeps_ok].
Qed.

(** Create and CountUsers wrap every error of [QueryRow(...).Scan], [sql.ErrNoRows] included *)
Lemma keeps_row_wrap {A} (scan : list value -> goerror + A) (msg : string) (q : goerror + Rows) :
  keeps_cause false (row_error scan q)
    match match q with
          | inl e => inl e
          | inr rows =>
              match rows_data rows with
              | row :: _ =>
                  match scan row with
                  | inl e => inl e
                  | inr a => match rows_err rows with Some e => inl e | None => inr a end
                  end
              | [] => match rows_err rows with Some e => inl e | None => inl ErrNoRows end
              end
          end with
    | inl e => Err (Errorf msg (Some e))
    | inr a => Ok a
    end.
Proof.
  destruct q as [e|[[|row rs] err]]; cbn [row_error rows_data rows_err].
  - apply keeps_wrap.
  - destruct err; apply keeps_wrap.
  - destruct (scan row) as [e|u]; [apply keeps_wrap|].
    destruct err; [apply keeps_wrap|apply keeps_ok].
Qed.

Lemma keeps_check_affected (op : string) (x : goerror + sqlResult) :
  keeps_cause true (exec_error x) (check_affected op x).
Proof.
  destruct x as [e|[e|n]]; cbn; try apply keeps_wrap.
  destruct (n =? 0); [apply keeps_not_found; now left|apply keeps_ok].
Qed.

Lemma scan_loop_error (rs : list (list value)) (s : slice User) :
  match scan_loop rs s with
  | inl e => exists c, loop_error rs = Some c /\ e = Errorf "failed to scan user: %w" (Some c)
  | inr _ => loop_error rs = None
  end.
Proof.
  revert s; induction rs as [|row rs IH]; intros s; cbn; [reflexivity|].
  destruct (scan_user row) as [e|u]; [now exists e|apply IH].
Qed.

(** List, FindByNamePattern and GetRecentUsers: [Query] and the row loop *)
Lemma keeps_rows (msg : string) (q : goerror + Rows) :
  keeps_cause false (rows_error q)
    match q with
    | inl e => Err (Errorf msg (Some e))
    | inr rows => collect_users rows
    end.
Proof.
  destruct q as [e|[rs err]]; [apply keeps_wrap|].
  unfold collect_users, rows_error; cbn [rows_data rows_err].
  pose proof (scan_loop_error rs NilSlice) as H.
  destruct (scan_loop rs NilSlice) as [e|s].
  - destruct H as [c [-> ->]]. apply keeps_wrap.
  - rewrite H. destruct err; [apply keeps_wrap|apply keeps_ok].
Qed.

(* ------------------------------------------------------------------ *)
(** * Claims *)

(** C1: eight of the nine operations send one fixed statement text whatever
    their arguments (the values travel as [$n] parameters), but
    GetRecentUsers formats its day count into the text, so the text sent for
    [GetRecentUsers(1)] differs from the one sent for [GetRecentUsers(2)]. *)
Theorem sql_text_per_operation :
  (forall id, texts (GetByID trace_db id) = [q_GetByID]) /\
  (forall email, texts (GetByEmail trace_db email) = [q_GetByEmail]) /\
  (forall email name, texts (Create trace_db email name) = [q_Create]) /\
  (forall id email name, texts (Update trace_db id email name) = [q_Update]) /\
  (forall id, texts (Delete trace_db id) = [q_Delete]) /\
  texts (List trace_db) = [q_List] /\
  (forall pattern, texts (FindByNamePattern trace_db pattern) = [q_FindByNamePattern]) /\
  texts (CountUsers trace_db) = [q_CountUsers] /\
  (forall days, texts (GetRecentUsers trace_db days)
                = [(recent_head ++ format_int days ++ recent_tail)%string]) /\
  texts (GetRecentUsers trace_db 1) <> texts (GetRecentUsers trace_db 2).
Proof.
  repeat split; intros; try reflexivity.
  vm_compute. discriminate.
Qed.

(** C2 (counterexample): the NotFound errors of GetByID, GetByEmail, Update
    and Delete are one and the same fresh error: [sql.ErrNoRows] (or the
    zero row count) is not kept as its cause, and nothing in it names the
    operation. *)
Lemma not_found_drops_cause :
  snd (GetByID pg 9999 seed) = Err not_found /\
  snd (GetByEmail pg "nobody@example.com" seed) = Err not_found /\
  snd (Update pg 9999 "nobody@example.com" "Nobody" seed) = Err not_found /\
  snd (Delete pg 9999 seed) = Err not_found /\
  Unwrap not_found = None /\
  errors_Is not_found ErrNoRows = false.
Proof. vm_compute. repeat split. Qed.

(** C2 (amended): over any driver, every error an operation returns is
    either the cause-less [user not found] error, which only GetByID,
    GetByEmail, Update and Delete return, or an [fmt.Errorf] whose [%w]
    operand is exactly the error the driver or database/sql reported in
    that run (the query's or statement's error, [rows.Err()], a Scan error,
    [sql.ErrNoRows], the [RowsAffected()] error); a reported error is never
    dropped, except [sql.ErrNoRows], which becomes NotFound; the wrapped
    error is what [errors.Unwrap] returns and [errors.Is] finds. *)
Theorem error_shapes {S} (db : sqlDB S) (st : S) :
  (forall id, keeps_cause true (row_error scan_user (snd (Query db q_GetByID [VInt id] st)))
                          (snd (GetByID db id st))) /\
  (forall email, keeps_cause true (row_error scan_user (snd (Query db q_GetByEmail [VText email] st)))
                             (snd (GetByEmail db email st))) /\
  (forall email name,
     keeps_cause false (row_error scan_user (snd (Query db q_Create [VText email; VText name] st)))
                 (snd (Create db email name st))) /\
  (forall id email name,
     keeps_cause true (exec_error (snd (Exec db q_Update [VText email; VText name; VInt id] st)))
                 (snd (Update db id email name st))) /\
  (forall id, keeps_cause true (exec_error (snd (Exec db q_Delete [VInt id] st)))
                          (snd (Delete db id st))) /\
  keeps_cause false (rows_error (snd (Query db q_List [] st))) (snd (List db st)) /\
  (forall pattern,
     keeps_cause false (rows_error (snd (Query db q_FindByNamePattern [VText pattern] st)))
                 (snd (FindByNamePattern db pattern st))) /\
  keeps_cause false (row_error scan_int (snd (Query db q_CountUsers [] st)))
              (snd (CountUsers db st)) /\
  (forall days,
     keeps_cause false (rows_error (snd (Query db (Sprintf_d q_GetRecentUsers_format days) [] st)))
                 (snd (GetRecentUsers db days st))) /\
  (forall msg c, Unwrap (Errorf msg (Some c)) = Some c /\
                 errors_Is (Errorf msg (Some c)) c = true) /\
  Unwrap not_found = None.
Proof.
  split.
  { intros id. unfold GetByID, QueryRowScan.
    destruct (Query db _ _ _) as [st' q]; cbn [snd]. apply keeps_row_lookup. }
  split.
  { intros email. unfold GetByEmail, QueryRowScan.
    destruct (Query db _ _ _) as [st' q]; cbn [snd]. apply keeps_row_lookup. }
  split.
  { intros email name. unfold Create, QueryRowScan.
    destruct (Query db _ _ _) as [st' q]; cbn [snd]. apply keeps_row_wrap. }
  split.
  { intros id email name. unfold Update.
    destruct (Exec db _ _ _) as [st' x]; cbn [snd]. apply keeps_check_affected. }
  split.
  { intros id. unfold Delete.
    destruct (Exec db _ _ _) as [st' x]; cbn [snd]. apply keeps_check_affected. }
  split.
  { unfold List. destruct (Query db _ _ _) as [st' q]; cbn [snd]. apply keeps_rows. }
  split.
  { intros p. unfold FindByNamePattern.
    destruct (Query db _ _ _) as [st' q]; cbn [snd]. apply keeps_rows. }
  split.
  { unfold CountUsers, QueryRowScan.
    destruct (Query db _ _ _) as [st' q]; cbn [snd]. apply keeps_row_wrap. }
  split.
  { intros d. unfold GetRecentUsers.
    destruct (Query db _ _ _) as [st' q]; cbn [snd]. apply keeps_rows. }
  split; [|reflexivity].
  intros msg c. split; [reflexivity|]. cbn [errors_Is].
  now rewrite errors_Is_refl, orb_true_r.
Qed.

(** C3: a user Create returns carries the email and name passed to it, the
    next id of the sequence (never 0) and the store's time; right after,
    GetByID on that id and GetByEmail on that email both return it. *)
Theorem create_then_get (st st1 : pg_store) (email name : string) (u : User) :
  wf st ->
  Create pg email name st = (st1, Ok u) ->
  Email u = email /\ Name u = name /\ ID u = users_id_seq st /\ ID u <> 0 /\
  CreatedAt u = clock st /\
  GetByID pg (ID u) st1 = (st1, Ok u) /\ GetByEmail pg email st1 = (st1, Ok u).
Proof.
  intros [Hid [Hem [Hseq Hall]]] Hc.
  rewrite Create_pg in Hc.
  destruct (existsb (has_email email) (users st)) eqn:Hex; [discriminate|].
  injection Hc as <- <-. cbn [Email Name ID CreatedAt].
  repeat split; try reflexivity; try lia.
  - rewrite GetByID_pg. cbn [users set_users bump_seq].
    rewrite filter_app.
    replace (filter (has_id (users_id_seq st)) (users st)) with (@nil User).
    + unfold has_id at 1; cbn. now rewrite Z.eqb_refl.
    + symmetry. apply (filter_key_absent ID Z.eqb Z_eqb_spec').
      intros Hin. apply in_map_iff in Hin as [v [Hv Hin]].
      specialize (Hall v Hin). lia.
  - rewrite GetByEmail_pg. cbn [users set_users bump_seq].
    rewrite filter_app, existsb_false_filter by exact Hex.
    unfold has_email at 1; cbn. now rewrite String.eqb_refl.
Qed.

Lemma create_then_get_witness :
  wf seed /\
  GetByEmail pg "charlie@example.com"
    (set_users (bump_seq seed)
       (users seed ++ [mkUser 3 "charlie@example.com" "Charlie Brown" 1700000000])) =
  (set_users (bump_seq seed)
     (users seed ++ [mkUser 3 "charlie@example.com" "Charlie Brown" 1700000000]),
   Ok (mkUser 3 "charlie@example.com" "Charlie Brown" 1700000000)).
Proof.
  split; [exact wf_seed|].
  apply (create_then_get seed _ "charlie@example.com" "Charlie Brown" _ wf_seed).
  reflexivity.
Defined.

(** C4 (counterexample): Update on the existing id 1 with the email of
    row 2 neither succeeds nor reports NotFound: the unique constraint on
    email fails the statement. *)
Lemma update_existing_can_fail :
  Update pg 1 "bob@example.com" "Alice Smith" seed =
  (seed, Err (Errorf "failed to update user: %w" (Some (PqError unique_violation)))).
Proof. vm_compute. reflexivity. Qed.

(** C4 (amended): a missing id or email gives the [user not found] error from
    GetByID, GetByEmail, Update and Delete (for Update and Delete the
    statement itself ran and affected no row); an existing row is returned
    by GetByID and GetByEmail and deleted by Delete, and Update on it
    succeeds unless the new email is another row's, when it fails with the
    wrapped unique violation, never with NotFound. *)
Theorem not_found_iff_missing (st : pg_store) :
  wf st ->
  (forall id, ~ In id (map ID (users st)) ->
     GetByID pg id st = (st, Err not_found) /\
     (forall email name,
        pg_exec q_Update [VText email; VText name; VInt id] st = (st, inr (inr 0)) /\
        Update pg id email name st = (st, Err not_found)) /\
     pg_exec q_Delete [VInt id] st = (st, inr (inr 0)) /\
     Delete pg id st = (st, Err not_found)) /\
  (forall email, ~ In email (map Email (users st)) ->
     GetByEmail pg email st = (st, Err not_found)) /\
  (forall u, In u (users st) ->
     GetByID pg (ID u) st = (st, Ok u) /\
     GetByEmail pg (Email u) st = (st, Ok u) /\
     snd (Delete pg (ID u) st) = Ok tt /\
     (forall email name,
        snd (Update pg (ID u) email name st) =
        if existsb (fun v => negb (has_id (ID u) v) && has_email email v) (users st)
        then Err (Errorf "failed to update user: %w" (Some (PqError unique_violation)))
        else Ok tt)).
Proof.
  intros [Hid [Hem _]].
  assert (Habs : forall id, ~ In id (map ID (users st)) -> filter (has_id id) (users st) = [])
    by (intros id H; exact (filter_key_absent ID Z.eqb Z_eqb_spec' id _ H)).
  assert (Hone : forall u, In u (users st) -> filter (has_id (ID u)) (users st) = [u])
    by (intros u H; exact (filter_key_unique ID Z.eqb Z_eqb_spec' u _ Hid H)).
  split; [|split].
  - intros id Hn. pose proof (Habs id Hn) as Hf.
    split; [|split; [|split]].
    + rewrite GetByID_pg, Hf. reflexivity.
    + intros email name. rewrite pg_Update, Hf. split; [reflexivity|].
      unfold Update. cbn [Exec pg]. rewrite pg_Update, Hf. reflexivity.
    + rewrite pg_Delete, Hf, filter_negb_absent, set_users_same by exact Hn. reflexivity.
    + rewrite Delete_pg, Hf, filter_negb_absent, set_users_same by exact Hn. reflexivity.
  - intros email Hn. rewrite GetByEmail_pg.
    assert (Hf : filter (has_email email) (users st) = [])
      by exact (filter_key_absent Email String.eqb String_eqb_spec' email _ Hn).
    rewrite Hf. reflexivity.
  - intros u Hu. split; [|split; [|split]].
    + rewrite GetByID_pg, (Hone u Hu). reflexivity.
    + rewrite GetByEmail_pg.
      assert (Hf : filter (has_email (Email u)) (users st) = [u])
        by exact (filter_key_unique Email String.eqb String_eqb_spec' u _ Hem Hu).
      rewrite Hf. reflexivity.
    + rewrite Delete_pg, (Hone u Hu). reflexivity.
    + intros email name. rewrite Update_pg, (Hone u Hu). reflexivity.
Qed.

Lemma not_found_iff_missing_witness :
  wf seed /\ GetByID pg 9999 seed = (seed, Err not_found) /\
  GetByID pg 2 seed = (seed, Ok (mkUser 2 "bob@example.com" "Bob Johnson" 1700000000)).
Proof.
  destruct (not_found_iff_missing seed wf_seed) as [Hm [_ He]].
  split; [exact wf_seed|]. split.
  - apply Hm. cbn. intros [H|[H|[]]]; discriminate.
  - apply (He (mkUser 2 "bob@example.com" "Bob Johnson" 1700000000)). cbn. tauto.
Defined.

(** C5: Create with an email some row already has fails with the driver's
    unique-violation error kept under [%w] (so [errors.Is] finds it, and it
    is told apart from NotFound, which has no cause); the rows are left as
    they were (only the id sequence has moved on). *)
Theorem create_duplicate_email (st : pg_store) (email name : string) :
  In email (map Email (users st)) ->
  Create pg email name st =
    (bump_seq st, Err (Errorf "failed to create user: %w" (Some (PqError unique_violation)))) /\
  users (bump_seq st) = users st /\
  errors_Is (Errorf "failed to create user: %w" (Some (PqError unique_violation)))
            (PqError unique_violation) = true /\
  errors_Is not_found (PqError unique_violation) = false.
Proof.
  intros Hin. rewrite Create_pg.
  replace (existsb (has_email email) (users st)) with true.
  - repeat split.
  - symmetry. apply existsb_exists.
    apply in_map_iff in Hin as [v [Hv Hin]]. exists v. split; [exact Hin|].
    unfold has_email. now apply String.eqb_eq.
Qed.

Lemma create_duplicate_email_witness :
  In "alice@example.com"%string (map Email (users seed)) /\
  Create pg "alice@example.com" "Another Alice" seed =
    (bump_seq seed, Err (Errorf "failed to create user: %w" (Some (PqError unique_violation)))).
Proof.
  assert (H : In "alice@example.com"%string (map Email (users seed))) by (cbn; tauto).
  split; [exact H|]. apply (create_duplicate_email seed _ "Another Alice" H).
Defined.

Lemma sorted_weaken (R R' : User -> User -> Prop) (l : list User) :
  (forall a b, R a b -> R' a b) -> Sorted R l -> Sorted R' l.
Proof.
  intros HR. induction 1 as [|a l Hl IH Hd]; constructor; [exact IH|].
  destruct Hd; constructor. now apply HR.
Qed.

Lemma nodup_map_filter (f : User -> bool) (l : list User) :
  NoDup (map ID l) -> NoDup (map ID (filter f l)).
Proof.
  induction l as [|a l IH]; cbn; intros H; [constructor|].
  inversion H as [|? ? Hnin Hnd]; subst.
  destruct (f a); cbn; [constructor|]; auto.
  intros Hin. apply Hnin. apply in_map_iff in Hin as [v [Hv Hin]].
  apply filter_In in Hin as [Hin _]. rewrite <- Hv. now apply in_map.
Qed.

Lemma slice_of_list_nil {A} (l : list A) : slice_of_list l = NilSlice <-> l = [].
Proof. destruct l; cbn; split; congruence. Qed.

(** C6 (counterexample): with no rows, List returns the nil slice. *)
Lemma list_empty_store_nil_slice :
  List pg (mkStore [] 1 1700000000) = (mkStore [] 1 1700000000, Ok NilSlice).
Proof. reflexivity. Qed.

(** C6 (amended): List returns, without error, exactly the stored rows in
    strictly ascending id order; when there are no rows the slice it returns
    is Go's nil slice (length 0). *)
Theorem list_all_rows_by_id (st : pg_store) :
  wf st ->
  List pg st = (st, Ok (slice_of_list (sort_by by_id (users st)))) /\
  Permutation (elems (slice_of_list (sort_by by_id (users st)))) (users st) /\
  Sorted (fun a b => ID a < ID b) (elems (slice_of_list (sort_by by_id (users st)))) /\
  (slice_of_list (sort_by by_id (users st)) = NilSlice <-> users st = []).
Proof.
  intros [Hid _]. rewrite elems_slice_of_list.
  split; [apply List_pg|]. split; [apply sort_by_perm|]. split.
  - now apply sort_by_id_strict.
  - rewrite slice_of_list_nil. split; intros H.
    + apply Permutation_nil. rewrite <- H. apply sort_by_perm.
    + rewrite H. reflexivity.
Qed.

Lemma list_all_rows_by_id_witness :
  wf seed /\ List pg seed = (seed, Ok (MkSlice (users seed))).
Proof.
  split; [exact wf_seed|]. apply (list_all_rows_by_id seed wf_seed).
Defined.

(** C7: FindByNamePattern returns, without error, exactly the rows whose
    name ILIKE the pattern, in strictly ascending id order; when no name
    matches it returns an empty result (the nil slice) and no error. *)
Theorem find_by_name_pattern (st : pg_store) (pattern : string) :
  wf st ->
  exists users_found,
    FindByNamePattern pg pattern st = (st, Ok users_found) /\
    Permutation (elems users_found) (filter (fun u => ilike (Name u) pattern) (users st)) /\
    (forall u, In u (elems users_found) <-> In u (users st) /\ ilike (Name u) pattern = true) /\
    Sorted (fun a b => ID a < ID b) (elems users_found) /\
    (filter (fun u => ilike (Name u) pattern) (users st) = [] -> users_found = NilSlice).
Proof.
  intros [Hid _].
  eexists. split; [apply FindByNamePattern_pg|].
  rewrite elems_slice_of_list.
  assert (Hp : Permutation (sort_by by_id (filter (fun u => ilike (Name u) pattern) (users st)))
                           (filter (fun u => ilike (Name u) pattern) (users st)))
    by apply sort_by_perm.
  split; [exact Hp|]. split; [|split].
  - intros u. split; intros H.
    + apply (proj1 (filter_In (fun v => ilike (Name v) pattern) u (users st))).
      eapply Permutation_in; [exact Hp | exact H].
    + eapply Permutation_in; [symmetry; exact Hp|].
      apply (proj2 (filter_In (fun v => ilike (Name v) pattern) u (users st))). exact H.
  - apply sort_by_id_strict.
    now apply nodup_map_filter.
  - intros H. rewrite H. reflexivity.
Qed.

Lemma find_by_name_pattern_witness :
  wf seed /\
  exists users_found,
    FindByNamePattern pg "%smith%" seed = (seed, Ok users_found) /\
    elems users_found = [mkUser 1 "alice@example.com" "Alice Smith" 1700000000].
Proof.
  split; [exact wf_seed|].
  destruct (find_by_name_pattern seed "%smith%" wf_seed) as [f [Hf _]].
  exists f. split; [exact Hf|].
  rewrite FindByNamePattern_pg in Hf. injection Hf as <-. reflexivity.
Defined.

(** the wildcard match on the names of the spec's examples *)
Lemma ilike_examples :
  ilike "Alice Smith" "%Smith%" = true /\ ilike "Alice Smith" "%SMITH%" = true /\
  ilike "Bob Johnson" "%Smith%" = false /\ ilike "Alice Smith" "%NoSuchThing%" = false /\
  ilike "Alice Smith" "_lice%" = true /\ ilike "Alice Smith" "lice%" = false.
Proof. vm_compute. repeat split. Qed.

(** C8: in every store state CountUsers succeeds with the number of rows
    that List returns in that same state. *)
Theorem count_equals_list_length (st : pg_store) :
  exists count found,
    CountUsers pg st = (st, Ok count) /\ List pg st = (st, Ok found) /\
    count = Z.of_nat (length (elems found)).
Proof.
  eexists; eexists. split; [apply CountUsers_pg|]. split; [apply List_pg|].
  rewrite elems_slice_of_list, (Permutation_length (sort_by_perm by_id (users st))).
  reflexivity.
Qed.

(** C9: for positive [days], GetRecentUsers returns, without error, exactly
    the rows created within the last [days] days of the store's own [NOW()]
    (the caller supplies no time), newest first. *)
Theorem recent_users_by_store_clock (st : pg_store) (days : Z) :
  0 < days -> wf st ->
  exists found,
    GetRecentUsers pg days st = (st, Ok found) /\
    Permutation (elems found) (filter (recent st days) (users st)) /\
    (forall u, In u (elems found) <->
               In u (users st) /\ clock st - days * seconds_per_day <= CreatedAt u <= clock st) /\
    Sorted (fun a b => CreatedAt b <= CreatedAt a) (elems found).
Proof.
  intros _ [_ [_ [_ Hall]]].
  eexists. split; [apply GetRecentUsers_pg|]. rewrite elems_slice_of_list.
  assert (Hp := sort_by_perm by_created_desc (filter (recent st days) (users st))).
  split; [exact Hp|]. split.
  - intros u. split; intros H.
    + apply Permutation_in with (l' := filter (recent st days) (users st)) in H;
        [|exact Hp].
      apply filter_In in H as [Hin Hr]. unfold recent in Hr. apply Z.leb_le in Hr.
      specialize (Hall u Hin). split; [exact Hin|lia].
    + destruct H as [Hin Hr].
      eapply Permutation_in; [symmetry; exact Hp|]. apply filter_In.
      split; [exact Hin|]. unfold recent. apply Z.leb_le. lia.
  - eapply sorted_weaken; [|apply sort_by_sorted, by_created_desc_total].
    intros a b H. unfold by_created_desc in H. now apply Z.leb_le.
Qed.

Lemma recent_users_by_store_clock_witness :
  0 < 1 /\ wf seed /\
  exists found, GetRecentUsers pg 1 seed = (seed, Ok found) /\ length (elems found) = 2%nat.
Proof.
  split; [lia|]. split; [exact wf_seed|].
  destruct (recent_users_by_store_clock seed 1 ltac:(lia) wf_seed) as [f [Hf _]].
  exists f. split; [exact Hf|].
  rewrite GetRecentUsers_pg in Hf. injection Hf as <-. reflexivity.
Defined.

(** C10: GetRecentUsers checks nothing about [days]: for every integer,
    zero and negatives included, it formats the value into the statement
    text and sends that text (with no parameters); the store runs it and
    answers with rows, and over any driver the only errors are wrapped
    driver errors, never an invalid-argument error of its own. *)
Theorem recent_days_unchecked (days : Z) :
  fst (GetRecentUsers trace_db days []) =
    [((recent_head ++ format_int days ++ recent_tail)%string, [])] /\
  (forall st, GetRecentUsers pg days st =
     (st, Ok (slice_of_list (sort_by by_created_desc (filter (recent st days) (users st)))))) /\
  (forall S (db : sqlDB S) (st : S), err_shape false (snd (GetRecentUsers db days st))).
Proof.
  split; [|split].
  - unfold GetRecentUsers. now rewrite Sprintf_recent.
  - intros st. apply GetRecentUsers_pg.
  - intros S db st. unfold GetRecentUsers.
    destruct (Query db _ _ _) as [st' [e|rows]]; cbn.
    + right. now exists "failed to get recent users: %w"%string, e.
    + apply collect_users_shape.
Qed.

(* ------------------------------------------------------------------ *)
(** * Further properties of the repository *)

Lemma nodup_key_filter {K} (key : User -> K) (f : User -> bool) (l : list User) :
  NoDup (map key l) -> NoDup (map key (filter f l)).
Proof.
  induction l as [|a l IH]; cbn; intros H; [constructor|].
  inversion H as [|? ? Hnin Hnd]; subst.
  destruct (f a); cbn; [constructor|]; auto.
  intros Hin. apply Hnin. apply in_map_iff in Hin as [v [Hv Hin]].
  apply filter_In in Hin as [Hin _]. rewrite <- Hv. now apply in_map.
Qed.

Lemma nodup_key_snoc {K} (key : User -> K) (l : list User) (u : User) :
  NoDup (map key l) -> ~ In (key u) (map key l) -> NoDup (map key (l ++ [u])).
Proof.
  intros H Hn. rewrite map_app. cbn.
  apply NoDup_app; [exact H | repeat constructor; auto |].
  intros x Hx [<-|[]]. contradiction.
Qed.

Lemma existsb_email_false (e : string) (l : list User) :
  existsb (has_email e) l = false -> ~ In e (map Email l).
Proof.
  intros H Hin. apply in_map_iff in Hin as [v [Hv Hin]].
  assert (existsb (has_email e) l = true)
    by (apply existsb_exists; exists v; split; [exact Hin|];
        unfold has_email; now apply String.eqb_eq).
  congruence.
Qed.

(** the row update of [UPDATE users SET email = $1, name = $2 WHERE id = $3] *)
Definition set_row (i : Z) (e n : string) (u : User) : User :=
  if has_id i u then mkUser (ID u) e n (CreatedAt u) else u.

Lemma Update_pg_state (i : Z) (email name : string) (st : pg_store) :
  fst (Update pg i email name st) =
  match filter (has_id i) (users st) with
  | [] => st
  | _ :: _ =>
      if existsb (fun u => negb (has_id i u) && has_email email u) (users st)
      then st
      else set_users st (map (set_row i email name) (users st))
  end.
Proof.
  unfold Update. cbn [Exec pg]. rewrite pg_Update.
  destruct (filter _ _); [reflexivity|]. destruct (existsb _ _); reflexivity.
Qed.

Lemma set_row_ID i e n u : ID (set_row i e n u) = ID u.
Proof. unfold set_row; destruct (has_id i u); reflexivity. Qed.

Lemma set_row_CreatedAt i e n u : CreatedAt (set_row i e n u) = CreatedAt u.
Proof. unfold set_row; destruct (has_id i u); reflexivity. Qed.

Lemma map_ID_set_row i e n l : map ID (map (set_row i e n) l) = map ID l.
Proof. rewrite map_map. apply map_ext. apply set_row_ID. Qed.

Lemma nodup_email_set_row (i : Z) (e n : string) (l : list User) :
  NoDup (map ID l) -> NoDup (map Email l) ->
  existsb (fun u => negb (has_id i u) && has_email e u) l = false ->
  NoDup (map Email (map (set_row i e n) l)).
Proof.
  induction l as [|a l IH]; cbn; intros Hid Hem Hx; [constructor|].
  inversion Hid as [|? ? Hnid Hid']; inversion Hem as [|? ? Hnem Hem']; subst.
  apply orb_false_iff in Hx as [Ha Hx].
  constructor; [|now apply IH].
  intros Hin. apply in_map_iff in Hin as [v' [Hv' Hin]].
  apply in_map_iff in Hin as [v [<- Hv]].
  assert (Hxv : negb (has_id i v) && has_email e v = false).
  { destruct (negb (has_id i v) && has_email e v) eqn:E; [|reflexivity].
    assert (existsb (fun u => negb (has_id i u) && has_email e u) l = true)
      by (apply existsb_exists; now exists v).
    congruence. }
  unfold set_row in Hv'. unfold has_id, has_email in *.
  destruct (ID v =? i) eqn:Ev, (ID a =? i) eqn:Ea; cbn in Hv', Ha, Hxv.
  - apply Z.eqb_eq in Ev, Ea. apply Hnid. rewrite Ea, <- Ev. now apply in_map.
  - apply String.eqb_neq in Ha. congruence.
  - apply String.eqb_neq in Hxv. congruence.
  - apply Hnem. rewrite <- Hv'. now apply in_map.
Qed.

(** X1: Create keeps the store invariants, whether it succeeds or fails on
    a duplicate email: ids and emails stay unique, every id stays below the
    sequence, and no row is dated after the store's clock. *)
Theorem create_preserves_wf (st : pg_store) (email name : string) :
  wf st -> wf (fst (Create pg email name st)).
Proof.
  intros (Hid & Hem & Hseq & Hall). rewrite Create_pg.
  destruct (existsb (has_email email) (users st)) eqn:Hex; cbn.
  - unfold wf; cbn. split; [exact Hid|]. split; [exact Hem|]. split; [lia|].
    intros u Hu. specialize (Hall u Hu). lia.
  - unfold wf; cbn. split; [|split; [|split]].
    + apply nodup_key_snoc; [exact Hid|]. cbn. intros Hin.
      apply in_map_iff in Hin as [v [Hv Hin]]. specialize (Hall v Hin). lia.
    + apply nodup_key_snoc; [exact Hem|]. cbn. now apply existsb_email_false.
    + lia.
    + intros u Hu. apply in_app_or in Hu as [Hu|[<-|[]]].
      * specialize (Hall u Hu). lia.
      * cbn. lia.
Qed.

Lemma create_preserves_wf_witness :
  wf seed /\ wf (fst (Create pg "charlie@example.com" "Charlie Brown" seed)).
Proof. split; [exact wf_seed|]. apply create_preserves_wf, wf_seed. Defined.

(** X2: Update keeps the store invariants, whether it succeeds, finds no
    row, or is refused by the unique email constraint. *)
Theorem update_preserves_wf (st : pg_store) (id : Z) (email name : string) :
  wf st -> wf (fst (Update pg id email name st)).
Proof.
  intros Hwf. rewrite Update_pg_state.
  destruct (filter (has_id id) (users st)); [exact Hwf|].
  destruct (existsb _ _) eqn:Hx; [exact Hwf|].
  destruct Hwf as (Hid & Hem & Hseq & Hall).
  unfold wf; cbn. split; [|split; [|split]].
  - now rewrite map_ID_set_row.
  - now apply nodup_email_set_row.
  - exact Hseq.
  - intros w Hw. apply in_map_iff in Hw as [v [<- Hv]].
    rewrite set_row_ID, set_row_CreatedAt. now apply Hall.
Qed.

Lemma update_preserves_wf_witness :
  wf seed /\ wf (fst (Update pg 1 "alice.new@example.com" "Alice Smith" seed)).
Proof. split; [exact wf_seed|]. apply update_preserves_wf, wf_seed. Defined.

(** X3: Delete keeps the store invariants. *)
Theorem delete_preserves_wf (st : pg_store) (id : Z) :
  wf st -> wf (fst (Delete pg id st)).
Proof.
  intros (Hid & Hem & Hseq & Hall). rewrite Delete_pg. unfold wf; cbn.
  split; [|split; [|split]].
  - now apply nodup_key_filter.
  - now apply nodup_key_filter.
  - exact Hseq.
  - intros u Hu. apply filter_In in Hu as [Hu _]. now apply Hall.
Qed.

Lemma delete_preserves_wf_witness : wf seed /\ wf (fst (Delete pg 2 seed)).
Proof. split; [exact wf_seed|]. apply delete_preserves_wf, wf_seed. Defined.

(** the store states the repository can lead to: an empty table with a
    fresh sequence, then any Create, Update or Delete, and the store's
    clock moving forward (reads leave the store as it is) *)
Inductive reachable : pg_store -> Prop :=
| reach_empty (now : Z) : reachable (mkStore [] 1 now)
| reach_create st email name :
    reachable st -> reachable (fst (Create pg email name st))
| reach_update st id email name :
    reachable st -> reachable (fst (Update pg id email name st))
| reach_delete st id :
    reachable st -> reachable (fst (Delete pg id st))
| reach_tick st d :
    0 <= d -> reachable st -> reachable (mkStore (users st) (users_id_seq st) (clock st + d)).

(** X4: every state reached from an empty table through the repository's
    writes has unique ids and emails, ids below the sequence and no row
    dated after the store's clock. *)
Theorem reachable_wf (st : pg_store) : reachable st -> wf st.
Proof.
  induction 1 as [now|st e n _ IH|st i e n _ IH|st i _ IH|st d Hd _ IH].
  - unfold wf; cbn. split; [constructor|]. split; [constructor|]. split; [lia|]. tauto.
  - now apply create_preserves_wf.
  - now apply update_preserves_wf.
  - now apply delete_preserves_wf.
  - destruct IH as (Hid & Hem & Hseq & Hall). unfold wf; cbn.
    split; [exact Hid|]. split; [exact Hem|]. split; [exact Hseq|].
    intros u Hu. specialize (Hall u Hu). lia.
Qed.

Lemma reachable_wf_witness :
  reachable (fst (Create pg "a@example.com" "A" (mkStore [] 1 0))) /\
  wf (fst (Create pg "a@example.com" "A" (mkStore [] 1 0))).
Proof.
  assert (H : reachable (fst (Create pg "a@example.com" "A" (mkStore [] 1 0))))
    by (apply reach_create, reach_empty).
  split; [exact H|]. exact (reachable_wf _ H).
Defined.

(** one write of the repository, or the store's clock moving forward *)
Definition tick (st : pg_store) (d : Z) : pg_store :=
  mkStore (users st) (users_id_seq st) (clock st + d).

Inductive step : pg_store -> pg_store -> Prop :=
| step_create email name st : step st (fst (Create pg email name st))
| step_update id email name st : step st (fst (Update pg id email name st))
| step_delete id st : step st (fst (Delete pg id st))
| step_tick d st : 0 <= d -> step st (tick st d).

Inductive steps : pg_store -> pg_store -> Prop :=
| steps_refl st : steps st st
| steps_step st st' st'' : step st st' -> steps st' st'' -> steps st st''.

(** the id [i] is below the sequence and no row has it *)
Definition id_retired (i : Z) (st : pg_store) : Prop :=
  i < users_id_seq st /\ ~ In i (map ID (users st)).

Lemma step_retired (i : Z) (st st' : pg_store) :
  step st st' -> id_retired i st -> id_retired i st'.
Proof.
  intros Hs [Hlt Hn]. destruct Hs as [e n st|j e n st|j st|d st Hd].
  - rewrite Create_pg. destruct (existsb _ _); unfold id_retired; cbn; split; try lia.
    + exact Hn.
    + rewrite map_app. intros Hin. apply in_app_or in Hin as [Hin|[Hin|[]]];
        [contradiction|cbn in Hin; lia].
  - rewrite Update_pg_state.
    destruct (filter _ _); [now split|]. destruct (existsb _ _); [now split|].
    unfold id_retired; cbn. rewrite map_ID_set_row. now split.
  - rewrite Delete_pg. unfold id_retired; cbn. split; [exact Hlt|].
    intros Hin. apply Hn. apply in_map_iff in Hin as [w [<- Hin]].
    apply filter_In in Hin as [Hin _]. now apply in_map.
  - unfold id_retired, tick; cbn. now split.
Qed.

Lemma steps_retired (i : Z) (st st' : pg_store) :
  steps st st' -> id_retired i st -> id_retired i st'.
Proof.
  induction 1 as [st|st st' st'' Hs _ IH]; [tauto|].
  intros H. apply IH. exact (step_retired i st st' Hs H).
Qed.

Lemma filter_length_split (f : User -> bool) (l : list User) :
  (length (filter f l) + length (filter (fun u => negb (f u)) l))%nat = length l.
Proof.
  induction l as [|a l IH]; cbn; [reflexivity|].
  destruct (f a); cbn; lia.
Qed.

Lemma filter_has_id_one (st : pg_store) (u : User) :
  wf st -> In u (users st) -> filter (has_id (ID u)) (users st) = [u].
Proof.
  intros [Hid _] Hu. exact (filter_key_unique ID Z.eqb Z_eqb_spec' u _ Hid Hu).
Qed.

Lemma filter_after_remove (f : User -> bool) (l : list User) :
  filter f (filter (fun u => negb (f u)) l) = [].
Proof.
  induction l as [|a l IH]; cbn; [reflexivity|].
  destruct (f a) eqn:E; cbn; [exact IH|]. now rewrite E.
Qed.

(** X5: after a successful Update of an existing row, GetByID returns that
    row with the new email and name and its old id and creation time, and
    every row is the old one with at most this row rewritten. *)
Theorem update_then_get (st : pg_store) (u : User) (email name : string) :
  wf st -> In u (users st) ->
  snd (Update pg (ID u) email name st) = Ok tt ->
  GetByID pg (ID u) (fst (Update pg (ID u) email name st)) =
    (fst (Update pg (ID u) email name st), Ok (mkUser (ID u) email name (CreatedAt u))) /\
  users (fst (Update pg (ID u) email name st)) = map (set_row (ID u) email name) (users st).
Proof.
  intros Hwf Hu Hok.
  rewrite Update_pg, (filter_has_id_one st u Hwf Hu) in Hok.
  rewrite Update_pg_state, (filter_has_id_one st u Hwf Hu).
  destruct (existsb _ _) eqn:Hx; [discriminate|].
  pose proof (update_preserves_wf st (ID u) email name Hwf) as Hwf'.
  rewrite Update_pg_state, (filter_has_id_one st u Hwf Hu), Hx in Hwf'.
  split; [|reflexivity].
  assert (Hin : In (set_row (ID u) email name u) (users (set_users st (map (set_row (ID u) email name) (users st)))))
    by (cbn; now apply in_map).
  pose proof (filter_has_id_one _ _ Hwf' Hin) as Hf. rewrite set_row_ID in Hf.
  rewrite GetByID_pg, Hf. unfold set_row, has_id. now rewrite Z.eqb_refl.
Qed.

Lemma update_then_get_witness :
  wf seed /\ In (mkUser 1 "alice@example.com" "Alice Smith" 1700000000) (users seed) /\
  snd (Update pg 1 "alice.new@example.com" "Alice New" seed) = Ok tt /\
  GetByID pg 1 (fst (Update pg 1 "alice.new@example.com" "Alice New" seed)) =
    (fst (Update pg 1 "alice.new@example.com" "Alice New" seed),
     Ok (mkUser 1 "alice.new@example.com" "Alice New" 1700000000)).
Proof.
  assert (Hu : In (mkUser 1 "alice@example.com" "Alice Smith" 1700000000) (users seed))
    by (cbn; tauto).
  assert (Hok : snd (Update pg 1 "alice.new@example.com" "Alice New" seed) = Ok tt)
    by reflexivity.
  split; [exact wf_seed|]. split; [exact Hu|]. split; [exact Hok|].
  exact (proj1 (update_then_get seed _ "alice.new@example.com" "Alice New" wf_seed Hu Hok)).
Defined.

(** X6: Delete of an existing row succeeds; afterwards GetByID on its id
    reports NotFound, CountUsers is one less, and every other row is still
    there. *)
Theorem delete_then_get (st : pg_store) (u : User) :
  wf st -> In u (users st) ->
  snd (Delete pg (ID u) st) = Ok tt /\
  GetByID pg (ID u) (fst (Delete pg (ID u) st)) = (fst (Delete pg (ID u) st), Err not_found) /\
  CountUsers pg (fst (Delete pg (ID u) st)) =
    (fst (Delete pg (ID u) st), Ok (Z.of_nat (length (users st)) - 1)) /\
  (forall v, In v (users st) -> v <> u -> In v (users (fst (Delete pg (ID u) st)))).
Proof.
  intros Hwf Hu. pose proof (filter_has_id_one st u Hwf Hu) as Hf.
  rewrite Delete_pg, Hf. cbn [fst snd]. split; [reflexivity|]. split; [|split].
  - rewrite GetByID_pg. cbn [users set_users].
    now rewrite filter_after_remove.
  - rewrite CountUsers_pg. cbn [users set_users]. f_equal. f_equal.
    pose proof (filter_length_split (has_id (ID u)) (users st)) as Hl.
    rewrite Hf in Hl. cbn in Hl. lia.
  - intros v Hv Hne. cbn [users set_users]. apply filter_In. split; [exact Hv|].
    destruct (has_id (ID u) v) eqn:E; [|reflexivity].
    exfalso. apply Hne.
    assert (Hin : In v (filter (has_id (ID u)) (users st))) by (apply filter_In; now split).
    rewrite Hf in Hin. now destruct Hin as [<-|[]].
Qed.

Lemma delete_then_get_witness :
  wf seed /\ In (mkUser 2 "bob@example.com" "Bob Johnson" 1700000000) (users seed) /\
  GetByID pg 2 (fst (Delete pg 2 seed)) = (fst (Delete pg 2 seed), Err not_found).
Proof.
  assert (Hu : In (mkUser 2 "bob@example.com" "Bob Johnson" 1700000000) (users seed))
    by (cbn; tauto).
  split; [exact wf_seed|]. split; [exact Hu|].
  exact (proj1 (proj2 (delete_then_get seed _ wf_seed Hu))).
Defined.

Lemma filter_has_id_fresh (st : pg_store) (i : Z) :
  wf st -> users_id_seq st <= i -> filter (has_id i) (users st) = [].
Proof.
  intros (_ & _ & _ & Hall) Hi. apply existsb_false_filter.
  apply not_true_iff_false. intros Hex. apply existsb_exists in Hex as [v [Hv E]].
  unfold has_id in E. apply Z.eqb_eq in E. specialize (Hall v Hv). lia.
Qed.

(** X7: deleting the user a successful Create just returned (the tests'
    deferred cleanup) succeeds and leaves exactly the rows there were
    before the Create; only the id sequence has moved on. *)
Theorem create_then_delete (st st1 : pg_store) (email name : string) (u : User) :
  wf st -> Create pg email name st = (st1, Ok u) ->
  Delete pg (ID u) st1 = (mkStore (users st) (users_id_seq st + 1) (clock st), Ok tt).
Proof.
  intros Hwf Hc. rewrite Create_pg in Hc.
  destruct (existsb (has_email email) (users st)); [discriminate|].
  injection Hc as <- <-. rewrite Delete_pg. cbn [ID users set_users bump_seq].
  rewrite !filter_app, (filter_has_id_fresh st _ Hwf (Z.le_refl _)).
  assert (Hkeep : filter (fun v => negb (has_id (users_id_seq st) v)) (users st) = users st).
  { apply filter_negb_absent. intros Hin. apply in_map_iff in Hin as [v [Hv Hin]].
    destruct Hwf as (_ & _ & _ & Hall). specialize (Hall v Hin). lia. }
  rewrite Hkeep. unfold has_id; cbn. rewrite Z.eqb_refl. cbn.
  now rewrite app_nil_r.
Qed.

Lemma create_then_delete_witness :
  wf seed /\
  Create pg "temp@example.com" "Temporary User" seed =
    (set_users (bump_seq seed) (users seed ++ [mkUser 3 "temp@example.com" "Temporary User" 1700000000]),
     Ok (mkUser 3 "temp@example.com" "Temporary User" 1700000000)) /\
  Delete pg 3 (set_users (bump_seq seed)
                 (users seed ++ [mkUser 3 "temp@example.com" "Temporary User" 1700000000])) =
    (mkStore (users seed) 4 1700000000, Ok tt).
Proof.
  assert (Hc : Create pg "temp@example.com" "Temporary User" seed =
    (set_users (bump_seq seed) (users seed ++ [mkUser 3 "temp@example.com" "Temporary User" 1700000000]),
     Ok (mkUser 3 "temp@example.com" "Temporary User" 1700000000))) by reflexivity.
  split; [exact wf_seed|]. split; [exact Hc|].
  exact (create_then_delete seed _ _ _ _ wf_seed Hc).
Defined.

(** X8: CountUsers after a Create is one more than before when the Create
    succeeded and unchanged when it failed. *)
Theorem create_count (st st1 : pg_store) (email name : string) (r : result User) :
  Create pg email name st = (st1, r) ->
  CountUsers pg st1 =
    (st1, Ok (Z.of_nat (length (users st)) + match r with Ok _ => 1 | Err _ => 0 end)).
Proof.
  intros Hc. rewrite Create_pg in Hc. rewrite CountUsers_pg.
  destruct (existsb (has_email email) (users st)); injection Hc as <- <-;
    cbn [users set_users bump_seq]; f_equal; f_equal.
  - lia.
  - rewrite length_app; cbn. lia.
Qed.

Lemma create_count_witness :
  Create pg "alice@example.com" "Another Alice" seed =
    (bump_seq seed, Err (Errorf "failed to create user: %w" (Some (PqError unique_violation)))) /\
  CountUsers pg (bump_seq seed) = (bump_seq seed, Ok 2).
Proof.
  assert (Hc : Create pg "alice@example.com" "Another Alice" seed =
    (bump_seq seed, Err (Errorf "failed to create user: %w" (Some (PqError unique_violation)))))
    by reflexivity.
  split; [exact Hc|]. exact (create_count _ _ _ _ _ Hc).
Defined.

(** X9: ids are not reused: once the row with id [i] is deleted, no later
    state reached by any Creates, Updates, Deletes and clock moves (reads
    leave the store as it is) has a row with id [i] again, and every user
    a later Create returns has an id greater than [i]. *)
Theorem deleted_id_never_reused (st st2 : pg_store) (v : User) :
  wf st -> In v (users st) -> steps (fst (Delete pg (ID v) st)) st2 ->
  ~ In (ID v) (map ID (users st2)) /\
  (forall email name u, snd (Create pg email name st2) = Ok u -> ID v < ID u).
Proof.
  intros (_ & _ & _ & Hall) Hv Hs. specialize (Hall v Hv).
  assert (H0 : id_retired (ID v) (fst (Delete pg (ID v) st))).
  { rewrite Delete_pg. split; cbn; [lia|].
    intros Hin. apply in_map_iff in Hin as [w [Hw Hin]].
    apply filter_In in Hin as [_ Hn]. unfold has_id in Hn.
    rewrite Hw, Z.eqb_refl in Hn. discriminate. }
  pose proof (steps_retired _ _ _ Hs H0) as [Hlt Hn].
  split; [exact Hn|].
  intros email name u Hc. rewrite Create_pg in Hc.
  destruct (existsb _ _); cbn in Hc; [discriminate|].
  injection Hc as <-. cbn. lia.
Qed.

Lemma deleted_id_never_reused_witness :
  wf seed /\ In (mkUser 2 "bob@example.com" "Bob Johnson" 1700000000) (users seed) /\
  snd (Create pg "bob@example.com" "Bob Again"
         (fst (Create pg "carol@example.com" "Carol" (fst (Delete pg 2 seed))))) =
    Ok (mkUser 4 "bob@example.com" "Bob Again" 1700000000) /\ 2 < 4.
Proof.
  assert (Hv : In (mkUser 2 "bob@example.com" "Bob Johnson" 1700000000) (users seed))
    by (cbn; tauto).
  assert (Hs : steps (fst (Delete pg 2 seed))
                 (fst (Create pg "carol@example.com" "Carol" (fst (Delete pg 2 seed)))))
    by (eapply steps_step; [apply step_create|apply steps_refl]).
  assert (Hc : snd (Create pg "bob@example.com" "Bob Again"
         (fst (Create pg "carol@example.com" "Carol" (fst (Delete pg 2 seed))))) =
    Ok (mkUser 4 "bob@example.com" "Bob Again" 1700000000)) by reflexivity.
  split; [exact wf_seed|]. split; [exact Hv|]. split; [exact Hc|].
  exact (proj2 (deleted_id_never_reused seed _ _ wf_seed Hv Hs) _ _ _ Hc).
Defined.

(** X10: Update of an existing row that keeps its own email (changing the
    name only) succeeds: the unique constraint does not count the row
    against itself. *)
Theorem update_keep_email (st : pg_store) (u : User) (name : string) :
  wf st -> In u (users st) -> snd (Update pg (ID u) (Email u) name st) = Ok tt.
Proof.
  intros Hwf Hu. rewrite Update_pg, (filter_has_id_one st u Hwf Hu).
  replace (existsb _ _) with false; [reflexivity|].
  symmetry. apply not_true_iff_false. intros Hex.
  apply existsb_exists in Hex as [v [Hv E]]. apply andb_true_iff in E as [Hi He].
  destruct Hwf as (_ & Hem & _).
  assert (Hf : filter (has_email (Email u)) (users st) = [u])
    by exact (filter_key_unique Email String.eqb String_eqb_spec' u _ Hem Hu).
  assert (Hin : In v (filter (has_email (Email u)) (users st))) by (apply filter_In; now split).
  rewrite Hf in Hin. destruct Hin as [<-|[]].
  unfold has_id in Hi. now rewrite Z.eqb_refl in Hi.
Qed.

Lemma update_keep_email_witness :
  wf seed /\ In (mkUser 1 "alice@example.com" "Alice Smith" 1700000000) (users seed) /\
  snd (Update pg 1 "alice@example.com" "Alice Renamed" seed) = Ok tt.
Proof.
  assert (Hu : In (mkUser 1 "alice@example.com" "Alice Smith" 1700000000) (users seed))
    by (cbn; tauto).
  split; [exact wf_seed|]. split; [exact Hu|].
  exact (update_keep_email seed _ "Alice Renamed" wf_seed Hu).
Defined.

Lemma in_sort_by (le : User -> User -> bool) (u : User) (l : list User) :
  In u (sort_by le l) <-> In u l.
Proof.
  split; apply Permutation_in; [|symmetry]; apply sort_by_perm.
Qed.

(** X11: a user a successful Create has returned is among the users a
    GetRecentUsers(days) call made [elapsed > 0] seconds later (a later
    statement sees a later [NOW()]) returns exactly when [elapsed] is at
    most [days] days: always within a day for [days >= 1], never for
    [days <= 0]. *)
Theorem create_then_recent (st st1 : pg_store) (email name : string) (u : User)
    (days elapsed : Z) :
  Create pg email name st = (st1, Ok u) -> 0 < elapsed ->
  exists found, GetRecentUsers pg days (tick st1 elapsed) = (tick st1 elapsed, Ok found) /\
    (In u (elems found) <-> elapsed <= days * seconds_per_day).
Proof.
  intros Hc He. rewrite Create_pg in Hc.
  destruct (existsb (has_email email) (users st)); [discriminate|].
  injection Hc as <- <-.
  eexists. split; [apply GetRecentUsers_pg|].
  rewrite elems_slice_of_list, in_sort_by, filter_In. unfold tick, recent.
  cbn [users set_users bump_seq clock CreatedAt]. rewrite Z.leb_le.
  split; [intros [_ H]; lia|].
  intros H. split; [apply in_or_app; right; left; reflexivity|lia].
Qed.

Lemma create_then_recent_witness :
  Create pg "recent@example.com" "Recent User" seed =
    (set_users (bump_seq seed) (users seed ++ [mkUser 3 "recent@example.com" "Recent User" 1700000000]),
     Ok (mkUser 3 "recent@example.com" "Recent User" 1700000000)) /\ 0 < 60 /\
  exists found,
    GetRecentUsers pg 1 (tick (set_users (bump_seq seed)
      (users seed ++ [mkUser 3 "recent@example.com" "Recent User" 1700000000])) 60) =
    (tick (set_users (bump_seq seed)
      (users seed ++ [mkUser 3 "recent@example.com" "Recent User" 1700000000])) 60, Ok found) /\
    (In (mkUser 3 "recent@example.com" "Recent User" 1700000000) (elems found) <->
     60 <= 1 * seconds_per_day).
Proof.
  assert (Hc : Create pg "recent@example.com" "Recent User" seed =
    (set_users (bump_seq seed) (users seed ++ [mkUser 3 "recent@example.com" "Recent User" 1700000000]),
     Ok (mkUser 3 "recent@example.com" "Recent User" 1700000000))) by reflexivity.
  split; [exact Hc|]. split; [lia|].
  exact (create_then_recent _ _ _ _ _ 1 60 Hc ltac:(lia)).
Defined.

(** X12: GetRecentUsers on a day count that is not positive: a negative
    count gives the empty (nil) result without error, and 0 gives exactly
    the rows created at the store's current time. *)
Theorem recent_nonpositive_days (st : pg_store) :
  wf st ->
  (forall days, days < 0 -> GetRecentUsers pg days st = (st, Ok NilSlice)) /\
  exists found, GetRecentUsers pg 0 st = (st, Ok found) /\
    (forall u, In u (elems found) <-> In u (users st) /\ CreatedAt u = clock st).
Proof.
  intros (_ & _ & _ & Hall). split.
  - intros days Hd. rewrite GetRecentUsers_pg.
    replace (filter (recent st days) (users st)) with (@nil User); [reflexivity|].
    symmetry. apply existsb_false_filter. apply not_true_iff_false.
    intros Hex. apply existsb_exists in Hex as [v [Hv E]].
    unfold recent, seconds_per_day in E. apply Z.leb_le in E.
    specialize (Hall v Hv). lia.
  - eexists. split; [apply GetRecentUsers_pg|]. intros u.
    rewrite elems_slice_of_list, in_sort_by, filter_In.
    unfold recent, seconds_per_day. rewrite Z.leb_le.
    split; intros [Hu H]; split; auto; specialize (Hall u Hu); lia.
Qed.

Lemma recent_nonpositive_days_witness :
  wf seed /\ GetRecentUsers pg (-1) seed = (seed, Ok NilSlice).
Proof.
  split; [exact wf_seed|]. apply (proj1 (recent_nonpositive_days seed wf_seed)). lia.
Defined.

Lemma like_percent_any (s : string) : like "%" s = true.
Proof.
  induction s as [|c s IH]; [reflexivity|].
  cbn in *. rewrite IH. destruct s; reflexivity.
Qed.

(** X13: FindByNamePattern with the pattern "%" returns the same result as
    List, in every store state. *)
Theorem find_percent_is_list (st : pg_store) :
  FindByNamePattern pg "%" st = List pg st.
Proof.
  rewrite FindByNamePattern_pg, List_pg.
  replace (filter (fun u => ilike (Name u) "%") (users st)) with (users st); [reflexivity|].
  symmetry. apply forallb_filter_id. apply forallb_forall. intros u _.
  apply like_percent_any.
Qed.

(** a row that [rows.Scan] turns into a user *)
Definition scans (row : list value) : Prop := exists u, scan_user row = inr u.

(** the outcome of the row loop, read against the rows the cursor streamed:
    a result only when every row scanned and no iteration error came after
    them, and then the users scanned from all of them, in order (the nil
    slice exactly when no row came); otherwise the wrapped Scan error of the
    first row that does not scan, or, when all did, the wrapped [rows.Err()] *)
Definition all_or_nothing (rows : Rows) (r : result (slice User)) : Prop :=
  match r with
  | Ok found =>
      rows_err rows = None /\
      Forall2 (fun row u => scan_user row = inr u) (rows_data rows) (elems found) /\
      (found = NilSlice <-> rows_data rows = [])
  | Err e =>
      (exists pre row post c, rows_data rows = pre ++ row :: post /\ Forall scans pre /\
         scan_user row = inl c /\ e = Errorf "failed to scan user: %w" (Some c)) \/
      (exists c, Forall scans (rows_data rows) /\ rows_err rows = Some c /\
         e = Errorf "error iterating users: %w" (Some c))
  end.

Lemma scan_loop_all (rs : list (list value)) (s : slice User) :
  match scan_loop rs s with
  | inr s' => exists us, Forall2 (fun row u => scan_user row = inr u) rs us /\
                         elems s' = elems s ++ us /\
                         (s' = NilSlice <-> s = NilSlice /\ us = [])
  | inl e => exists pre row post c, rs = pre ++ row :: post /\ Forall scans pre /\
               scan_user row = inl c /\ e = Errorf "failed to scan user: %w" (Some c)
  end.
Proof.
  revert s; induction rs as [|row rs IH]; intros s; cbn.
  - exists []. split; [constructor|]. rewrite app_nil_r. split; [reflexivity|]. tauto.
  - destruct (scan_user row) as [c|u] eqn:E.
    + exists [], row, rs, c. split; [reflexivity|]. split; [constructor|]. now split.
    + specialize (IH (append s u)). destruct (scan_loop rs (append s u)) as [e|s'].
      * destruct IH as (pre & row' & post & c & -> & Hpre & Hrow & He).
        exists (row :: pre), row', post, c. split; [reflexivity|].
        split; [constructor; [now exists u|exact Hpre]|]. now split.
      * destruct IH as (us & Hus & Hel & Hnil). exists (u :: us).
        split; [now constructor|]. split.
        -- rewrite Hel. destruct s; cbn; [reflexivity|]. now rewrite <- app_assoc.
        -- rewrite Hnil. split; [intros [Ha _]; destruct s; discriminate|].
           intros [_ Hu]; discriminate.
Qed.

Lemma Forall2_scans (rs : list (list value)) (us : list User) :
  Forall2 (fun row u => scan_user row = inr u) rs us -> Forall scans rs.
Proof. induction 1; constructor; [eexists|]; eauto. Qed.

Lemma collect_users_all (rows : Rows) : all_or_nothing rows (collect_users rows).
Proof.
  destruct rows as [rs err]. unfold collect_users, all_or_nothing; cbn [rows_data rows_err].
  pose proof (scan_loop_all rs NilSlice) as H.
  destruct (scan_loop rs NilSlice) as [e|s].
  - now left.
  - destruct H as (us & Hus & Hel & Hnil). destruct err as [c|].
    + right. exists c. split; [exact (Forall2_scans _ _ Hus)|]. now split.
    + split; [reflexivity|]. cbn in Hel. rewrite Hel. split; [exact Hus|].
      rewrite Hnil. split; [intros [_ ->]; now inversion Hus|].
      intros ->. inversion Hus. now split.
Qed.

(** X14: over any driver, List, FindByNamePattern and GetRecentUsers never
    return part of a result: they succeed only when every streamed row
    scanned and the cursor ended without error, and then return the users
    scanned from all the rows, in the order streamed (the nil slice when no
    row came); otherwise the first failing Scan, the iteration error or the
    query error is returned wrapped. *)
Theorem multi_row_all_or_nothing {S} (db : sqlDB S) (st : S) (pattern : string) (days : Z) :
  match Query db q_List [] st with
  | (_, inr rows) => all_or_nothing rows (snd (List db st))
  | (_, inl e) => snd (List db st) = Err (Errorf "failed to list users: %w" (Some e))
  end /\
  match Query db q_FindByNamePattern [VText pattern] st with
  | (_, inr rows) => all_or_nothing rows (snd (FindByNamePattern db pattern st))
  | (_, inl e) => snd (FindByNamePattern db pattern st) =
                  Err (Errorf "failed to find users by pattern: %w" (Some e))
  end /\
  match Query db (Sprintf_d q_GetRecentUsers_format days) [] st with
  | (_, inr rows) => all_or_nothing rows (snd (GetRecentUsers db days st))
  | (_, inl e) => snd (GetRecentUsers db days st) =
                  Err (Errorf "failed to get recent users: %w" (Some e))
  end.
Proof.
  unfold List, FindByNamePattern, GetRecentUsers.
  split; [|split];
    match goal with |- match ?q with _ => _ end => destruct q as [? [|]] end;
    cbn; try reflexivity; apply collect_users_all.
Qed.
